(** * Veryfiable attestation service: the schema-registration script and
      the HTTP service skeleton

    A shallow embedding of [scripts/register-schema.js] (environment
    validation, network connection, schema submission, [main]) and of the
    Express entry point (liveness route, SIGTERM handler), with the
    properties the specification states about them. *)

From Stdlib Require Import Ascii String.
From stdpp Require Import gmap strings list pretty.


(** ** JavaScript string primitives used by the sources *)

Module JS.

(** [s.startsWith(p)] *)
Fixpoint startsWith (s p : string) {struct p} : bool :=
  match p, s with
  | EmptyString, _ => true
  | String _ _, EmptyString => false
  | String a p', String b s' => bool_decide (a = b) && startsWith s' p'
  end.

(** [s.includes(sub)]: [sub] occurs at some position of [s]. *)
Fixpoint includes (s sub : string) : bool :=
  startsWith s sub ||
  match s with
  | EmptyString => false
  | String _ s' => includes s' sub
  end.

(** [xs.join(sep)] *)
Fixpoint join (sep : string) (xs : list string) : string :=
  match xs with
  | [] => ""
  | [x] => x
  | x :: xs' => x +:+ sep +:+ join sep xs'
  end.

(** A property read that may yield [undefined] is an [option]; this is
    what a template literal prints for it. *)
Definition template (v : option string) : string :=
  match v with
  | Some s => s
  | None => "undefined"
  end.

(** Truthiness of a string-or-undefined value: [undefined] and the empty
    string are falsy. *)
Definition truthy (v : option string) : bool :=
  match v with
  | Some (String _ _) => true
  | _ => false
  end.

(** [a || b] on string-or-undefined values. *)
Definition or_else (a b : option string) : option string :=
  if truthy a then a else b.

End JS.

(** ** Regular expressions without flags, as the script's literals use them

    The two literals are anchored at both ends ([^ ... $], no [m] flag), so
    [re.test(s)] succeeds exactly when the whole of [s] is consumed.  The
    matcher is the backtracking one: alternatives are tried left to right
    and the rest of the pattern is a continuation. *)

Module Regex.

Inductive regex : Type :=
| Eps : regex                              (* empty pattern *)
| Class : (ascii → bool) → regex           (* [...] or a literal char *)
| Cat : regex → regex → regex              (* r1r2 *)
| Alt : regex → regex → regex              (* r1|r2 *)
| Rep : nat → regex → regex.               (* r{n} *)

(** [r?] is greedy: first try [r], then nothing. *)
Definition Opt (r : regex) : regex := Alt r Eps.

Definition Chr (c : ascii) : regex := Class (λ x, bool_decide (x = c)).

Fixpoint run (r : regex) (s : string) (k : string → bool) : bool :=
  match r with
  | Eps => k s
  | Class p =>
      match s with
      | String c s' => p c && k s'
      | EmptyString => false
      end
  | Cat r1 r2 => run r1 s (λ s', run r2 s' k)
  | Alt r1 r2 => run r1 s k || run r2 s k
  | Rep n r1 =>
      (fix iter (n : nat) (s : string) : bool :=
         match n with
         | O => k s
         | S m => run r1 s (iter m)
         end) n s
  end.

Definition at_end (s : string) : bool :=
  match s with
  | EmptyString => true
  | String _ _ => false
  end.

(** [/^r$/.test(s)] *)
Definition test (r : regex) (s : string) : bool := run r s at_end.

(** The words a pattern denotes. *)
Fixpoint lang (r : regex) (w : string) : Prop :=
  match r with
  | Eps => w = ""
  | Class p => ∃ c, w = String c "" ∧ p c = true
  | Cat r1 r2 => ∃ u v, w = u +:+ v ∧ lang r1 u ∧ lang r2 v
  | Alt r1 r2 => lang r1 w ∨ lang r2 w
  | Rep n r1 =>
      (fix pow (n : nat) (w : string) : Prop :=
         match n with
         | O => w = ""
         | S m => ∃ u v, w = u +:+ v ∧ lang r1 u ∧ pow m v
         end) n w
  end.

(** [0-9a-fA-F] *)
Definition hex (c : ascii) : bool :=
  let n := nat_of_ascii c in
  ((48 <=? n)%nat && (n <=? 57)%nat)
  || ((97 <=? n)%nat && (n <=? 102)%nat)
  || ((65 <=? n)%nat && (n <=? 70)%nat).

Definition zero_x : regex := Cat (Chr "0") (Chr "x").

(** [/^(0x)?[0-9a-fA-F]{64}$/] *)
Definition private_key_re : regex := Cat (Opt zero_x) (Rep 64 (Class hex)).

(** [/^0x[0-9a-fA-F]{40}$/] *)
Definition address_re : regex := Cat zero_x (Rep 40 (Class hex)).

End Regex.

(** ** Effects: console output, calls to the outside, exceptions, exit

    A computation yields the events it performed, in order, and how it
    completed.  Output written before a [throw] stays written, and
    [process.exit] ends the computation: no handler catches it. *)

Module Eff.

(** A thrown value, by the properties the sources read.  It is an
    object (reading a property of it does not fail); [None] stands for a
    property that reads as [undefined], and a [code] that is not a string
    compares like an absent one. *)
Record error : Type := {
  name : string;
  code : option string;
  message : option string;
  stack : option string;
}.

(** [new Error(msg)]; the stack frames after the first line are not
    modelled. *)
Definition new_Error (msg : string) : error :=
  {| name := "Error"; code := None; message := Some msg;
     stack := Some ("Error: " +:+ msg) |}.

(** Reading an identifier that no enclosing scope binds. *)
Definition ReferenceError (x : string) : error :=
  let msg := x +:+ " is not defined" in
  {| name := "ReferenceError"; code := None; message := Some msg;
     stack := Some ("ReferenceError: " +:+ msg) |}.

(** What a call into a library, or an awaited promise, does. *)
Inductive outcome (A : Type) : Type :=
| Returns : A → outcome A
| Throws : error → outcome A.
Global Arguments Returns {A} _.
Global Arguments Throws {A} _.

Inductive event : Type :=
| Print (line : string)                       (* console.log *)
| NewProvider (url : string)                  (* new ethers.JsonRpcProvider *)
| GetNetwork                                  (* provider.getNetwork() *)
| NewWallet (key : string)                    (* new ethers.Wallet *)
| GetAddress                                  (* signer.getAddress() *)
| GetBalance (address : string)               (* provider.getBalance *)
| NewSchemaRegistry (address : string)        (* new SchemaRegistry *)
| Connect (signer : string)                   (* schemaRegistry.connect *)
| Register                                    (* schemaRegistry.register *)
| Wait                                        (* transaction.wait() *)
| Respond (status : nat) (body : list (string * string))
                                              (* res.status(..).json(..) *)
| Listen (port : string)                      (* app.listen *)
| Close.                                      (* server.close(..) *)

Inductive completion (A : Type) : Type :=
| Normal : A → completion A
| Thrown : error → completion A
| Exited : Z → completion A.
Global Arguments Normal {A} _.
Global Arguments Thrown {A} _.
Global Arguments Exited {A} _.

Definition M (A : Type) : Type := list event * completion A.

Definition ret {A} (a : A) : M A := ([], Normal a).

Definition bind {A B} (m : M A) (f : A → M B) : M B :=
  match m.2 with
  | Normal a => (m.1 ++ (f a).1, (f a).2)
  | Thrown e => (m.1, Thrown e)
  | Exited c => (m.1, Exited c)
  end.

Definition throw {A} (e : error) : M A := ([], Thrown e).

Definition try_catch {A} (m : M A) (handler : error → M A) : M A :=
  match m.2 with
  | Thrown e => (m.1 ++ (handler e).1, (handler e).2)
  | _ => m
  end.

Definition emit (ev : event) : M unit := ([ev], Normal tt).

(** A call into the outside: the event, then what the call did. *)
Definition call {A} (ev : event) (o : outcome A) : M A :=
  match o with
  | Returns a => ([ev], Normal a)
  | Throws e => ([ev], Thrown e)
  end.

(** [await p], for a promise the code did not start itself. *)
Definition await {A} (o : outcome A) : M A :=
  match o with
  | Returns a => ret a
  | Throws e => throw e
  end.

(** [process.exit(c)] *)
Definition process_exit {A} (c : Z) : M A := ([], Exited c).

Definition trace {A} (m : M A) : list event := m.1.
Definition result {A} (m : M A) : completion A := m.2.

Definition exit_code {A} (m : M A) : option Z :=
  match result m with
  | Exited c => Some c
  | _ => None
  end.

(** How often an event of a given kind occurs in a trace. *)
Definition occurrences (p : event → bool) (t : list event) : nat :=
  length (filter (λ ev, p ev = true) t).

(** A computation that completes or throws, and does not end the
    process. *)
Definition no_exit {A} (m : M A) : Prop := ∀ c, result m ≠ Exited c.

(** A computation that performs at most [n] events of a kind. *)
Definition calls_le (p : event → bool) (n : nat) {A} (m : M A) : Prop :=
  occurrences p (trace m) ≤ n.

Definition is_Register (ev : event) : bool :=
  match ev with Register => true | _ => false end.
Definition is_Wait (ev : event) : bool :=
  match ev with Wait => true | _ => false end.
Definition is_Close (ev : event) : bool :=
  match ev with Close => true | _ => false end.
Definition is_GetNetwork (ev : event) : bool :=
  match ev with GetNetwork => true | _ => false end.

End Eff.

Import Eff.

Global Instance M_ret : MRet M := @Eff.ret.
Global Instance M_bind : MBind M := λ A B f m, Eff.bind m f.

(** ** scripts/register-schema.js *)

Module RegisterSchema.

(** *** Console helpers *)

Definition esc : string := String (ascii_of_nat 27) "".

Module colors.
Definition reset : string := esc +:+ "[0m".
Definition red : string := esc +:+ "[31m".
Definition green : string := esc +:+ "[32m".
Definition yellow : string := esc +:+ "[33m".
Definition blue : string := esc +:+ "[34m".
Definition cyan : string := esc +:+ "[36m".
End colors.

Definition log (message color : string) : M unit :=
  emit (Print (color +:+ message +:+ colors.reset)).

(** [log(message)] with the default colour. *)
Definition log_ (message : string) : M unit := log message colors.reset.

Definition logError (message : string) : M unit :=
  log ("❌ ERROR: " +:+ message) colors.red.

Definition logSuccess (message : string) : M unit :=
  log ("✅ " +:+ message) colors.green.

Definition logInfo (message : string) : M unit :=
  log ("ℹ️  " +:+ message) colors.cyan.

Definition logWarning (message : string) : M unit :=
  log ("⚠️  " +:+ message) colors.yellow.

Definition newline : string := String (ascii_of_nat 10) "".

Definition rule : string :=
  "═══════════════════════════════════════════════════════════".

(** *** validateEnvironment *)

(** [process.env]: every value it holds is a string. *)
Abbreviation environment := (gmap string string).

Record config : Type := {
  rpcUrl : string;
  privateKey : string;
  schemaRegistryAddress : string;
}.

Definition requiredVars : list string :=
  ["RPC_URL"; "PRIVATE_KEY"; "SCHEMA_REGISTRY_ADDRESS"].

(** The loop over [requiredVars]: the names whose value is falsy, in
    order. *)
Fixpoint collect_missing (env : environment) (vars : list string)
  : list string :=
  match vars with
  | [] => []
  | varName :: rest =>
      if negb (JS.truthy (env !! varName))
      then varName :: collect_missing env rest
      else collect_missing env rest
  end.

Definition missing_message (missing : list string) : string :=
  "Missing required environment variables: " +:+ JS.join ", " missing
  +:+ newline
  +:+ "Please ensure your .env file includes all required variables."
  +:+ newline
  +:+ "See README.md for setup instructions.".

Definition private_key_message : string :=
  "Invalid PRIVATE_KEY format. Must be a 64-character hexadecimal string (with or without 0x prefix).".

Definition registry_address_message : string :=
  "Invalid SCHEMA_REGISTRY_ADDRESS format. Must be a valid Ethereum address.".

(** Past the missing-settings check every required value is a non-empty
    string; the default below is never read. *)
Definition getenv (env : environment) (varName : string) : string :=
  default "" (env !! varName).

Definition validateEnvironment (env : environment) : M config :=
  logInfo "Validating environment variables...";;
  let missing := collect_missing env requiredVars in
  (if bool_decide (0 < length missing)
   then throw (new_Error (missing_message missing))
   else mret tt);;
  let privateKey := getenv env "PRIVATE_KEY" in
  (if negb (Regex.test Regex.private_key_re privateKey)
   then throw (new_Error private_key_message)
   else mret tt);;
  let registryAddress := getenv env "SCHEMA_REGISTRY_ADDRESS" in
  (if negb (Regex.test Regex.address_re registryAddress)
   then throw (new_Error registry_address_message)
   else mret tt);;
  logSuccess "Environment variables validated successfully";;
  mret {| rpcUrl := getenv env "RPC_URL";
          privateKey := if JS.startsWith privateKey "0x"
                        then privateKey
                        else "0x" +:+ privateKey;
          schemaRegistryAddress := registryAddress |}.

(** *** The outside: the RPC endpoint, the wallet and the registry SDK *)

Record network : Type := {
  net_name : string;
  chainId : Z;
}.

Record log_entry : Type := {
  topics : option (list string);
}.

(** What [transaction.wait()] resolves to, by the properties the script
    reads. *)
Record receipt : Type := {
  logs : option (list log_entry);
  transactionHash : option string;
  hash : option string;
}.

(** A pending-transaction handle: its [hash] and what [wait()] does. *)
Record transaction : Type := {
  tx_hash : option string;
  wait : outcome receipt;
}.

(** The two shapes of what [schemaRegistry.register] resolves to, told
    apart by [typeof transaction === 'string']. *)
Inductive registered : Type :=
| Uid (s : string)
| Pending (tx : transaction).

Record schema_request : Type := {
  schema : string;
  resolverAddress : string;
  revocable : bool;
}.

Record world : Type := {
  JsonRpcProvider : string → outcome unit;
  getNetwork : outcome network;
  Wallet : string → outcome unit;
  getAddress : outcome string;
  getBalance : string → outcome Z;
  formatEther : Z → string;
  SchemaRegistry : string → outcome unit;
  connect : string → outcome unit;
  register : schema_request → outcome registered;
}.

(** *** connectToNetwork *)

(** The provider and the signer are handles; they are identified by the
    endpoint and by the key they were built from. *)
Record connection : Type := {
  provider : string;
  signer : string;
}.

Definition faucet : string :=
  "https://www.coinbase.com/faucets/base-ethereum-sepolia-faucet".

Definition code_is (e : error) (c : string) : bool :=
  bool_decide (code e = Some c).

Definition connectToNetwork (w : world) (cfg : config) : M connection :=
  logInfo "Connecting to Base Sepolia network...";;
  try_catch
    (call (NewProvider (rpcUrl cfg)) (JsonRpcProvider w (rpcUrl cfg));;
     net ← call GetNetwork (getNetwork w);
     logSuccess ("Connected to network: " +:+ net_name net
                 +:+ " (Chain ID: " +:+ pretty (chainId net) +:+ ")");;
     call (NewWallet (privateKey cfg)) (Wallet w (privateKey cfg));;
     address ← call GetAddress (getAddress w);
     logInfo ("Wallet address: " +:+ address);;
     balance ← call (GetBalance address) (getBalance w address);
     let balanceInEth := formatEther w balance in
     logInfo ("Wallet balance: " +:+ balanceInEth +:+ " ETH");;
     (if bool_decide (balance = 0%Z)
      then logWarning
             ("Wallet has zero balance. You will need testnet ETH to register the schema."
              +:+ newline
              +:+ "Get Base Sepolia testnet ETH from: " +:+ faucet)
      else mret tt);;
     mret {| provider := rpcUrl cfg; signer := privateKey cfg |})
    (λ error,
       if code_is error "NETWORK_ERROR" || code_is error "TIMEOUT"
       then throw (new_Error
                     ("Network connection failed: "
                      +:+ JS.template (message error) +:+ newline
                      +:+ "Please check your RPC_URL and internet connection."))
       else throw error).

(** *** registerSchema *)

Definition the_schema : string :=
  "string platformId,string itemId,string reviewText,uint8 rating".

Definition no_resolver : string :=
  "0x0000000000000000000000000000000000000000".

Definition show_bool (b : bool) : string := if b then "true" else "false".

Definition report_uid (schemaUID : option string) : M unit :=
  logSuccess "Schema registered successfully!";;
  log_ "";;
  log rule colors.green;;
  log ("Schema UID: " +:+ JS.template schemaUID) colors.green;;
  log rule colors.green;;
  log_ "";;
  logInfo "Next Steps:";;
  log_ "  1. Copy the Schema UID above";;
  log_ "  2. Add it to your .env file as PUBLIC_REVIEW_SCHEMA_UID";;
  log_ "  3. Use this UID when creating attestations";;
  log_ "".

(** [receipt.logs && receipt.logs.length > 0 && receipt.logs[0].topics
    && receipt.logs[0].topics.length > 1], and then
    [receipt.logs[0].topics[1]]: an array is truthy also when empty, so
    each [&&] only asks that the property is there. *)
Definition second_topic_of_first_log (r : receipt) : option string :=
  match logs r with
  | Some (first :: _) =>
      match topics first with
      | Some ts => if bool_decide (1 < length ts) then ts !! 1%nat else None
      | None => None
      end
  | _ => None
  end.

Definition insufficient_funds_message : string :=
  "Insufficient funds to pay for gas." +:+ newline
  +:+ "Get Base Sepolia testnet ETH from: " +:+ faucet.

Definition nonce_message : string :=
  "Transaction nonce issue. Please try again in a few moments.".

Definition already_exists_message : string :=
  "Schema already exists. This schema may have been registered previously."
  +:+ newline
  +:+ "Check your transaction history or use the existing schema UID.".

(** [error.message && error.message.includes('already exists')] *)
Definition mentions_already_exists (e : error) : bool :=
  match message e with
  | Some text => JS.truthy (Some text) && JS.includes text "already exists"
  | None => false
  end.

(** The [catch] block of [registerSchema]. *)
Definition submission_error (e : error) : error :=
  if code_is e "INSUFFICIENT_FUNDS"
  then new_Error insufficient_funds_message
  else if code_is e "NONCE_EXPIRED" || code_is e "REPLACEMENT_UNDERPRICED"
  then new_Error nonce_message
  else if mentions_already_exists e
  then new_Error already_exists_message
  else new_Error ("Schema registration failed: "
                  +:+ JS.template (message e)).

Definition registerSchema (w : world) (signer schemaRegistryAddress : string)
  : M (option string) :=
  logInfo "Initializing Schema Registry...";;
  call (NewSchemaRegistry schemaRegistryAddress)
       (SchemaRegistry w schemaRegistryAddress);;
  call (Connect signer) (connect w signer);;
  let schema := the_schema in
  let resolverAddress := no_resolver in
  let revocable := true in
  logInfo "Schema Details:";;
  log ("  Schema: " +:+ schema) colors.blue;;
  log ("  Resolver: " +:+ resolverAddress) colors.blue;;
  log ("  Revocable: " +:+ show_bool revocable) colors.blue;;
  log_ "";;
  logInfo "Registering schema on Base Sepolia...";;
  logWarning "This will require a transaction and gas fees.";;
  try_catch
    (transaction ← call Register
                     (register w {| schema := schema;
                                    resolverAddress := resolverAddress;
                                    revocable := revocable |});
     match transaction with
     | Uid s =>
         let schemaUID := Some s in
         report_uid schemaUID;;
         mret schemaUID
     | Pending tx =>
         logInfo ("Transaction hash: " +:+ JS.template (tx_hash tx));;
         logInfo "Waiting for transaction confirmation...";;
         receipt ← call Wait (wait tx);
         schemaUID ←
           match second_topic_of_first_log receipt with
           | Some uid => mret (Some uid)
           | None =>
               let schemaUID :=
                 JS.or_else (transactionHash receipt) (hash receipt) in
               logWarning
                 "Could not extract schema UID from event logs, using transaction hash";;
               mret schemaUID
           end;
         report_uid schemaUID;;
         mret schemaUID
     end)
    (λ error, throw (submission_error error)).

(** *** main *)

Definition debug_enabled (env : environment) : bool :=
  bool_decide (env !! "DEBUG" = Some "true").

Definition main (env : environment) (w : world) : M unit :=
  log_ "";;
  log rule colors.cyan;;
  log "  EAS Schema Registration Script" colors.cyan;;
  log "  Base Sepolia Testnet" colors.cyan;;
  log rule colors.cyan;;
  log_ "";;
  try_catch
    (cfg ← validateEnvironment env;
     log_ "";;
     conn ← connectToNetwork w cfg;
     log_ "";;
     schemaUID ← registerSchema w (signer conn) (schemaRegistryAddress cfg);
     process_exit 0)
    (λ error,
       log_ "";;
       logError (JS.template (message error));;
       log_ "";;
       (if JS.truthy (stack error) && debug_enabled env
        then log "Stack trace:" colors.yellow;;
             emit (Print (JS.template (stack error)))
        else mret tt);;
       process_exit 1).

End RegisterSchema.

(** ** The HTTP service entry point *)

Module Server.

(** *** GET /api/v1/health *)

(** The object handed to [res.json], as the JSON that is sent: a property
    whose value is [undefined] is left out. *)
Definition property (key : string) (value : option string)
  : list (string * string) :=
  match value with
  | Some v => [(key, v)]
  | None => []
  end.

(** [body[key]] *)
Fixpoint field (key : string) (body : list (string * string))
  : option string :=
  match body with
  | [] => None
  | (k, v) :: rest => if bool_decide (k = key) then Some v else field key rest
  end.

(** [testConnection] comes from [./config/database]: it resolves to a
    boolean or throws.  [now] is what [new Date().toISOString()] gives. *)
Definition health (testConnection : outcome bool) (now : string) : M unit :=
  try_catch
    (dbConnected ← await testConnection;
     emit (Respond 200
             (property "status" (Some "healthy")
              ++ property "database"
                   (Some (if dbConnected : bool
                          then "connected" else "disconnected"))
              ++ property "version" (Some "0.1.0")
              ++ property "timestamp" (Some now))))
    (λ error,
       emit (Respond 503
               (property "status" (Some "unhealthy")
                ++ property "database" (Some "disconnected")
                ++ property "version" (Some "0.1.0")
                ++ property "timestamp" (Some now)
                ++ property "error" (message error)))).

(** The responses a request received, oldest first. *)
Definition responses (t : list event) : list (nat * list (string * string)) :=
  omap (λ ev, match ev with
              | Respond st body => Some (st, body)
              | _ => None
              end) t.

(** *** Start-up and shutdown *)

(** The names bound at the top level of the entry point. *)
Definition declared : list string :=
  ["express"; "cors"; "morgan"; "dotenv"; "testConnection"; "app"; "PORT"].

(** The parameters of the function Node wraps a CommonJS module in. *)
Definition module_wrapper : list string :=
  ["exports"; "require"; "module"; "__filename"; "__dirname"].

(** The properties of Node's global object. *)
Definition node_globals : list string :=
  ["globalThis"; "global"; "console"; "process"; "Buffer";
   "setTimeout"; "clearTimeout"; "setInterval"; "clearInterval";
   "setImmediate"; "clearImmediate"; "queueMicrotask"; "structuredClone";
   "URL"; "URLSearchParams"; "TextEncoder"; "TextDecoder";
   "AbortController"; "AbortSignal"; "Event"; "EventTarget";
   "MessageChannel"; "MessagePort"; "MessageEvent"; "BroadcastChannel";
   "Blob"; "performance"; "fetch"; "Headers"; "Request"; "Response";
   "FormData"; "WebAssembly"; "crypto"; "navigator"; "atob"; "btoa"].

(** The built-in objects of the language. *)
Definition builtins : list string :=
  ["Object"; "Function"; "Array"; "Number"; "Boolean"; "String"; "Symbol";
   "BigInt"; "Math"; "Date"; "RegExp"; "JSON"; "Promise"; "Proxy";
   "Reflect"; "Map"; "Set"; "WeakMap"; "WeakSet"; "Error"; "TypeError";
   "RangeError"; "ReferenceError"; "SyntaxError"; "EvalError"; "URIError";
   "parseInt"; "parseFloat"; "isNaN"; "isFinite"; "undefined"; "NaN";
   "Infinity"; "eval"; "encodeURIComponent"; "decodeURIComponent";
   "encodeURI"; "decodeURI"].

Definition in_scope (x : string) : bool :=
  bool_decide (x ∈ declared ++ module_wrapper ++ node_globals ++ builtins).

(** Evaluating an identifier: a name no scope binds is a
    [ReferenceError]. *)
Definition identifier (x : string) : M unit :=
  if in_scope x then mret tt else throw (ReferenceError x).

(** [process.env.PORT || 3001] *)
Definition PORT (env : gmap string string) : string :=
  JS.template (JS.or_else (env !! "PORT") (Some "3001")).

(** [app.listen(PORT, () => { ... })]; its result is not bound to a
    name. *)
Definition start (env : gmap string string) : M unit :=
  identifier "app";;
  emit (Listen (PORT env));;
  emit (Print "🚀 Veryfiable Attestation Service");;
  emit (Print ("📡 Server running on port " +:+ PORT env));;
  emit (Print ("🌍 Environment: "
               +:+ JS.template
                     (JS.or_else (env !! "NODE_ENV") (Some "development"))));;
  emit (Print ("🔗 Health check: http://localhost:" +:+ PORT env
               +:+ "/api/v1/health")).

(** The listener registered with [process.on('SIGTERM', ...)]. *)
Definition on_SIGTERM : M unit :=
  emit (Print "👋 SIGTERM signal received: closing HTTP server");;
  identifier "server";;
  emit Close;;
  emit (Print "✅ HTTP server closed").

(** Whether the HTTP listener is open after a trace. *)
Definition listening (t : list event) : bool :=
  foldl (λ open ev, match ev with
                    | Listen _ => true
                    | Close => false
                    | _ => open
                    end) false t.

End Server.

(** ** Concrete inputs *)

Module Sample.
Import RegisterSchema.

Definition key64 : string :=
  "0123456789abcdef0123456789ABCDEF0123456789abcdef0123456789ABCDEF".

Definition registry : string :=
  "0x4200000000000000000000000000000000000020".

Definition env : gmap string string :=
  {[ "RPC_URL" := "https://sepolia.base.org";
     "PRIVATE_KEY" := key64;
     "SCHEMA_REGISTRY_ADDRESS" := registry ]}.

(** The registry address is set to the empty string. *)
Definition env_empty_registry : gmap string string :=
  <[ "SCHEMA_REGISTRY_ADDRESS" := "" ]> env.

(** The endpoint and the registry address are not set. *)
Definition env_key_only : gmap string string :=
  {[ "PRIVATE_KEY" := key64 ]}.

Definition uid : string :=
  "0x7e1a5a4f4d1c0c6b8f2d3a9b5c6d7e8f9a0b1c2d3e4f5a6b7c8d9e0f1a2b3c4d".

Definition tx_id : string :=
  "0x9f8e7d6c5b4a39281706f5e4d3c2b1a09f8e7d6c5b4a39281706f5e4d3c2b1a0".

Definition request : schema_request :=
  {| schema := the_schema; resolverAddress := no_resolver;
     revocable := true |}.

(** An outside in which every call succeeds and the registry answers
    with [answer]. *)
Definition world_with (answer : outcome registered) : world :=
  {| JsonRpcProvider := λ _, Returns tt;
     getNetwork := Returns {| net_name := "base-sepolia"; chainId := 84532 |};
     Wallet := λ _, Returns tt;
     getAddress := Returns "0x1111111111111111111111111111111111111111";
     getBalance := λ _, Returns 1000000000000000%Z;
     formatEther := λ _, "0.001";
     SchemaRegistry := λ _, Returns tt;
     connect := λ _, Returns tt;
     register := λ _, answer |}.

Definition receipt_with_uid : receipt :=
  {| logs := Some [ {| topics := Some ["0xd4bcd0ad"; uid] |} ];
     transactionHash := None;
     hash := Some tx_id |}.

Definition receipt_without_logs : receipt :=
  {| logs := Some []; transactionHash := None; hash := Some tx_id |}.

Definition pending (r : receipt) : transaction :=
  {| tx_hash := Some tx_id; wait := Returns r |}.

(** The node reports both a funding problem and a duplicate. *)
Definition funds_and_duplicate : error :=
  {| name := "Error"; code := Some "INSUFFICIENT_FUNDS";
     message := Some "schema already exists";
     stack := None |}.

Definition duplicate : error :=
  {| name := "Error"; code := Some "CALL_EXCEPTION";
     message := Some "execution reverted: schema already exists";
     stack := None |}.

End Sample.

(** ** The specification's wording, for comparison with the code *)

Module Spec.

(** A hexadecimal character. *)
Definition hex_digit (c : ascii) : Prop :=
  c ∈ list_ascii_of_string "0123456789abcdefABCDEF".

(** Exactly [n] hexadecimal characters. *)
Definition hex_string (n : nat) (s : string) : Prop :=
  String.length s = n ∧ Forall hex_digit (list_ascii_of_string s).

(** Exactly 64 hexadecimal characters with an optional [0x] prefix. *)
Definition credential (s : string) : Prop :=
  hex_string 64 s ∨ ∃ body, s = "0x" +:+ body ∧ hex_string 64 body.

(** [s] carries the [0x] prefix. *)
Definition prefixed (s : string) : Prop := ∃ body, s = "0x" +:+ body.

(** The text [sub] occurs in [s]. *)
Definition contains (s sub : string) : Prop :=
  ∃ before after, s = before +:+ sub +:+ after.

(** [uid] is the second topic of the first log of a receipt. *)
Definition second_topic_of_first_log
  (r : RegisterSchema.receipt) (uid : string) : Prop :=
  ∃ first rest ts,
    RegisterSchema.logs r = Some (first :: rest)
    ∧ RegisterSchema.topics first = Some ts
    ∧ ts !! 1%nat = Some uid.

(** The registry handle was built and connected, so that the submission
    is attempted. *)
Definition registry_ready
  (w : RegisterSchema.world) (signer address : string) : Prop :=
  RegisterSchema.SchemaRegistry w address = Returns tt
  ∧ RegisterSchema.connect w signer = Returns tt.

(** The submission fails with [e]: [register] throws it, or the [wait] of
    the pending transaction does. *)
Definition submission_fails (w : RegisterSchema.world) (e : error) : Prop :=
  RegisterSchema.register w Sample.request = Throws e
  ∨ ∃ tx, RegisterSchema.register w Sample.request
          = Returns (RegisterSchema.Pending tx)
          ∧ RegisterSchema.wait tx = Throws e.

(** Validation, connection and submission all succeed. *)
Definition all_stages_succeed
  (env : gmap string string) (w : RegisterSchema.world) : Prop :=
  ∃ cfg conn uid,
    result (RegisterSchema.validateEnvironment env) = Normal cfg
    ∧ result (RegisterSchema.connectToNetwork w cfg) = Normal conn
    ∧ result (RegisterSchema.registerSchema w
                (RegisterSchema.signer conn)
                (RegisterSchema.schemaRegistryAddress cfg)) = Normal uid.

End Spec.

(** ** The remaining route of the HTTP service that answers by itself *)

Module Routes.

(** The 404 handler, [app.use((req, res) => ...)]: [method] and [path] are
    [req.method] and [req.path], [now] is what
    [new Date().toISOString()] gives. *)
Definition not_found (method path now : string) : M unit :=
  emit (Respond 404
          (Server.property "error" (Some "Not Found")
           ++ Server.property "message"
                (Some ("Route " +:+ method +:+ " " +:+ path +:+ " not found"))
           ++ Server.property "timestamp" (Some now))).

End Routes.

(** ** What a run shows from outside *)

Module Observe.
Import RegisterSchema.

(** The events that reach the RPC endpoint, the wallet or the registry. *)
Definition is_outside_call (ev : event) : bool :=
  match ev with
  | Print _ | Respond _ _ | Listen _ | Close => false
  | _ => true
  end.

Definition outside_calls (t : list event) : list event :=
  filter (λ ev, is_outside_call ev = true) t.

(** The calls a connection makes when nothing fails, in order. *)
Definition connection_calls (cfg : config) (address : string) : list event :=
  [NewProvider (rpcUrl cfg); GetNetwork; NewWallet (privateKey cfg);
   GetAddress; GetBalance address].

(** The calls a registration makes when nothing fails and the registry
    answers with a pending transaction, in order. *)
Definition registry_calls (signer address : string) : list event :=
  [NewSchemaRegistry address; Connect signer; Register; Wait].

(** The calls a connection makes in a given outside: each call is made
    exactly when every call before it returned. *)
Definition connection_calls_made (w : world) (cfg : config) : list event :=
  NewProvider (rpcUrl cfg)
  :: match JsonRpcProvider w (rpcUrl cfg) with
     | Throws _ => []
     | Returns _ =>
         GetNetwork
         :: match getNetwork w with
            | Throws _ => []
            | Returns _ =>
                NewWallet (privateKey cfg)
                :: match Wallet w (privateKey cfg) with
                   | Throws _ => []
                   | Returns _ =>
                       GetAddress
                       :: match getAddress w with
                          | Throws _ => []
                          | Returns address => [GetBalance address]
                          end
                   end
            end
     end.

(** The calls a registration makes in a given outside: each call is made
    exactly when every call before it returned, and the wait exactly when
    the registry answered with a pending transaction. *)
Definition registry_calls_made (w : world) (signer address : string)
  : list event :=
  NewSchemaRegistry address
  :: match SchemaRegistry w address with
     | Throws _ => []
     | Returns _ =>
         Connect signer
         :: match connect w signer with
            | Throws _ => []
            | Returns _ =>
                Register
                :: match register w Sample.request with
                   | Returns (Pending _) => [Wait]
                   | _ => []
                   end
            end
     end.

(** The error of the first call of a connection that throws, if any. *)
Definition first_connection_error (w : world) (cfg : config) : option error :=
  match JsonRpcProvider w (rpcUrl cfg) with
  | Throws e => Some e
  | Returns _ =>
      match getNetwork w with
      | Throws e => Some e
      | Returns _ =>
          match Wallet w (privateKey cfg) with
          | Throws e => Some e
          | Returns _ =>
              match getAddress w with
              | Throws e => Some e
              | Returns address =>
                  match getBalance w address with
                  | Throws e => Some e
                  | Returns _ => None
                  end
              end
          end
      end
  end.

(** The balance a connection reads, when it gets that far. *)
Definition balance_read (w : world) : option Z :=
  match getAddress w with
  | Returns address =>
      match getBalance w address with
      | Returns balance => Some balance
      | Throws _ => None
      end
  | Throws _ => None
  end.

Definition is_network_error (e : error) : Prop :=
  code e = Some "NETWORK_ERROR" ∨ code e = Some "TIMEOUT".

(** The line [logWarning(text)] prints. *)
Definition warning (text : string) : event :=
  Print (colors.yellow +:+ ("⚠️  " +:+ text) +:+ colors.reset).

Definition zero_balance_text : string :=
  "Wallet has zero balance. You will need testnet ETH to register the schema."
  +:+ newline +:+ "Get Base Sepolia testnet ETH from: " +:+ faucet.

Definition fallback_text : string :=
  "Could not extract schema UID from event logs, using transaction hash".

(** The digit of the colour code a printed line starts with. *)
Definition colour_digit (ev : event) : option ascii :=
  match ev with
  | Print (String _ (String _ (String _ (String d _)))) => Some d
  | _ => None
  end.

(** The line that shows the identifier to the operator. *)
Definition uid_line (schemaUID : option string) : event :=
  Print (colors.green +:+ ("Schema UID: " +:+ JS.template schemaUID)
         +:+ colors.reset).

(** The error of the first stage of [main] that throws, if any. *)
Definition main_failure (env : gmap string string) (w : world)
  : option error :=
  match result (validateEnvironment env) with
  | Thrown e => Some e
  | Normal cfg =>
      match result (connectToNetwork w cfg) with
      | Thrown e => Some e
      | Normal conn =>
          match result (registerSchema w (signer conn)
                          (schemaRegistryAddress cfg)) with
          | Thrown e => Some e
          | _ => None
          end
      | Exited _ => None
      end
  | Exited _ => None
  end.

(** What [main] prints about a failure: a blank line, the error line, a
    blank line, and in debug mode the stack under its heading. *)
Definition failure_report (env : gmap string string) (e : error)
  : list event :=
  [Print (colors.reset +:+ "" +:+ colors.reset);
   Print (colors.red +:+ ("❌ ERROR: " +:+ JS.template (message e))
          +:+ colors.reset);
   Print (colors.reset +:+ "" +:+ colors.reset)]
  ++ (if JS.truthy (stack e)
      then if bool_decide (env !! "DEBUG" = Some "true")
           then [Print (colors.yellow +:+ "Stack trace:" +:+ colors.reset);
                 Print (JS.template (stack e))]
           else []
      else []).

(** Two configurations that give the three required settings the same
    values. *)
Definition same_required (env1 env2 : gmap string string) : Prop :=
  ∀ v, v ∈ requiredVars → env1 !! v = env2 !! v.

End Observe.

(** ** Further concrete inputs *)

Module Cases.
Import RegisterSchema.

(** [Sample.env] with the debug flag set. *)
Definition env_debug : gmap string string := <[ "DEBUG" := "true" ]> Sample.env.

(** [Sample.env] with a credential that is not hexadecimal. *)
Definition env_bad_key : gmap string string :=
  <[ "PRIVATE_KEY" := "my-secret-key" ]> Sample.env.

(** [Sample.env] with a registry address that lacks its prefix. *)
Definition env_bad_registry : gmap string string :=
  <[ "SCHEMA_REGISTRY_ADDRESS" := "4200000000000000000000000000000000000020" ]>
    Sample.env.

(** What validation makes of [Sample.env]. *)
Definition cfg : config :=
  {| rpcUrl := "https://sepolia.base.org";
     privateKey := "0x" +:+ Sample.key64;
     schemaRegistryAddress := Sample.registry |}.

Definition network_down : error :=
  {| name := "Error"; code := Some "NETWORK_ERROR";
     message := Some "could not detect network"; stack := None |}.

Definition bad_argument : error :=
  {| name := "TypeError"; code := Some "INVALID_ARGUMENT";
     message := Some "invalid private key"; stack := None |}.

Definition out_of_funds : error :=
  {| name := "Error"; code := Some "INSUFFICIENT_FUNDS";
     message := Some "insufficient funds for intrinsic transaction cost";
     stack := None |}.

Definition reverted : error :=
  {| name := "Error"; code := Some "CALL_EXCEPTION";
     message := Some "execution reverted"; stack := None |}.

Definition world_ok : world :=
  Sample.world_with (Returns (Uid Sample.uid)).

(** The endpoint does not answer. *)
Definition world_offline : world :=
  {| JsonRpcProvider := JsonRpcProvider world_ok;
     getNetwork := Throws network_down;
     Wallet := Wallet world_ok;
     getAddress := getAddress world_ok;
     getBalance := getBalance world_ok;
     formatEther := formatEther world_ok;
     SchemaRegistry := SchemaRegistry world_ok;
     connect := connect world_ok;
     register := register world_ok |}.

(** The wallet library refuses the key. *)
Definition world_bad_wallet : world :=
  {| JsonRpcProvider := JsonRpcProvider world_ok;
     getNetwork := getNetwork world_ok;
     Wallet := λ _, Throws bad_argument;
     getAddress := getAddress world_ok;
     getBalance := getBalance world_ok;
     formatEther := formatEther world_ok;
     SchemaRegistry := SchemaRegistry world_ok;
     connect := connect world_ok;
     register := register world_ok |}.

(** The wallet holds nothing. *)
Definition world_broke : world :=
  {| JsonRpcProvider := JsonRpcProvider world_ok;
     getNetwork := getNetwork world_ok;
     Wallet := Wallet world_ok;
     getAddress := getAddress world_ok;
     getBalance := λ _, Returns 0%Z;
     formatEther := λ _, "0.0";
     SchemaRegistry := SchemaRegistry world_ok;
     connect := connect world_ok;
     register := register world_ok |}.

(** The registry handle cannot be built. *)
Definition world_no_registry : world :=
  {| JsonRpcProvider := JsonRpcProvider world_ok;
     getNetwork := getNetwork world_ok;
     Wallet := Wallet world_ok;
     getAddress := getAddress world_ok;
     getBalance := getBalance world_ok;
     formatEther := formatEther world_ok;
     SchemaRegistry := λ _, Throws bad_argument;
     connect := connect world_ok;
     register := register world_ok |}.



End Cases.

(** * Properties *)

(** Run the effect operations of a computation, leaving strings and the
    calls to the outside as they are. *)
Ltac run_eff :=
  cbv beta iota zeta delta
    [mbind mret M_bind M_ret Eff.bind Eff.ret try_catch call emit throw
     await process_exit fst snd result trace exit_code app
     RegisterSchema.log RegisterSchema.log_ RegisterSchema.logError
     RegisterSchema.logSuccess RegisterSchema.logInfo
     RegisterSchema.logWarning RegisterSchema.report_uid].

Tactic Notation "run_eff" "in" hyp(H) :=
  cbv beta iota zeta delta
    [mbind mret M_bind M_ret Eff.bind Eff.ret try_catch call emit throw
     await process_exit fst snd result trace exit_code app
     RegisterSchema.log RegisterSchema.log_ RegisterSchema.logError
     RegisterSchema.logSuccess RegisterSchema.logInfo
     RegisterSchema.logWarning RegisterSchema.report_uid] in H.

(** ** Strings *)

Section StringFacts.

Lemma string_app_cons (x : ascii) (a b : string) :
  String x a +:+ b = String x (a +:+ b).
Proof. reflexivity. Qed.

Lemma string_app_nil_l (a : string) : "" +:+ a = a.
Proof. reflexivity. Qed.

Lemma string_app_assoc (a b c : string) : (a +:+ b) +:+ c = a +:+ b +:+ c.
Proof.
  induction a as [|x a IH]; [done|].
  rewrite !string_app_cons. by rewrite IH.
Qed.

Lemma string_app_nil_r (a : string) : a +:+ "" = a.
Proof.
  induction a as [|x a IH]; [done|].
  rewrite string_app_cons. by rewrite IH.
Qed.

Lemma string_app_length (a b : string) :
  String.length (a +:+ b) = String.length a + String.length b.
Proof.
  induction a as [|x a IH]; [done|].
  rewrite string_app_cons. simpl. by rewrite IH.
Qed.

Lemma string_app_chars (a b : string) :
  list_ascii_of_string (a +:+ b)
  = list_ascii_of_string a ++ list_ascii_of_string b.
Proof.
  induction a as [|x a IH]; [done|].
  rewrite string_app_cons. simpl. by rewrite IH.
Qed.

Lemma string_app_eq_nil (a b : string) : a +:+ b = "" → a = "" ∧ b = "".
Proof. destruct a; [done | rewrite string_app_cons; discriminate]. Qed.

Lemma startsWith_spec (s p : string) :
  JS.startsWith s p = true ↔ ∃ rest, s = p +:+ rest.
Proof.
  revert s. induction p as [|a p IH]; intros s; simpl.
  - split; [intros _; exists s; reflexivity | done].
  - destruct s as [|b s].
    + split; [done | intros [rest Hrest]; discriminate].
    + rewrite andb_true_iff, bool_decide_eq_true, IH. split.
      * intros [-> [rest ->]]. exists rest. reflexivity.
      * intros [rest Hrest]. rewrite string_app_cons in Hrest.
        injection Hrest as -> ->. eauto.
Qed.

Lemma startsWith_prefixed (s : string) :
  JS.startsWith s "0x" = true ↔ Spec.prefixed s.
Proof. apply startsWith_spec. Qed.

Lemma includes_spec (s sub : string) :
  JS.includes s sub = true ↔ Spec.contains s sub.
Proof.
  unfold Spec.contains. split.
  - induction s as [|c s IH]; simpl; rewrite orb_true_iff.
    + intros [H|H]; [|done].
      apply startsWith_spec in H as [rest ->]. exists "", rest. reflexivity.
    + intros [H|H].
      * apply startsWith_spec in H as [rest Hrest]. by exists "", rest.
      * destruct (IH H) as (before & after & ->).
        exists (String c before), after. reflexivity.
  - intros (before & after & ->).
    induction before as [|c before IH].
    + rewrite string_app_nil_l.
      assert (JS.startsWith (sub +:+ after) sub = true) as H
        by (apply startsWith_spec; eauto).
      destruct (sub +:+ after); simpl in *; by rewrite H.
    + rewrite string_app_cons. simpl. by rewrite IH, orb_true_r.
Qed.

Lemma contains_app_l (a b sub : string) :
  Spec.contains a sub → Spec.contains (a +:+ b) sub.
Proof.
  intros (before & after & ->). exists before, (after +:+ b).
  by rewrite ?string_app_assoc.
Qed.

Lemma contains_app_r (a b sub : string) :
  Spec.contains b sub → Spec.contains (a +:+ b) sub.
Proof.
  intros (before & after & ->). exists (a +:+ before), after.
  by rewrite ?string_app_assoc.
Qed.

Lemma contains_refl (s : string) : Spec.contains s s.
Proof. exists "", "". by rewrite string_app_nil_l, string_app_nil_r. Qed.

(** Every element of an array occurs in its [join]. *)
Lemma join_contains (sep x : string) (xs : list string) :
  x ∈ xs → Spec.contains (JS.join sep xs) x.
Proof.
  induction xs as [|y ys IH]; [by intros ?%elem_of_nil|].
  intros [->|Hin]%elem_of_cons.
  - destruct ys; simpl; [apply contains_refl|].
    apply contains_app_l, contains_refl.
  - destruct ys as [|z zs]; [by apply elem_of_nil in Hin|].
    change (JS.join sep (y :: z :: zs))
      with (y +:+ sep +:+ JS.join sep (z :: zs)).
    by apply contains_app_r, contains_app_r, IH.
Qed.

Lemma truthy_spec (v : option string) :
  JS.truthy v = true ↔ ∃ s, v = Some s ∧ s ≠ "".
Proof.
  destruct v as [[|c s]|]; simpl; split; try done.
  - intros (s & [= <-] & Hs). done.
  - intros _. eauto.
  - intros (s & [=] & _).
Qed.

End StringFacts.

(** ** The matcher decides the language of a pattern *)

Section RegexFacts.
Import Regex.

Lemma lang_Cat (r1 r2 : regex) (w : string) :
  lang (Cat r1 r2) w ↔ ∃ u v, w = u +:+ v ∧ lang r1 u ∧ lang r2 v.
Proof. reflexivity. Qed.

Lemma lang_Rep_0 (r : regex) (w : string) : lang (Rep 0 r) w ↔ w = "".
Proof. reflexivity. Qed.

Lemma lang_Rep_S (n : nat) (r : regex) (w : string) :
  lang (Rep (S n) r) w ↔ ∃ u v, w = u +:+ v ∧ lang r u ∧ lang (Rep n r) v.
Proof. reflexivity. Qed.

Lemma run_Rep_0 (r : regex) (s : string) (k : string → bool) :
  run (Rep 0 r) s k = k s.
Proof. reflexivity. Qed.

Lemma run_Rep_S (n : nat) (r : regex) (s : string) (k : string → bool) :
  run (Rep (S n) r) s k = run r s (λ s', run (Rep n r) s' k).
Proof. reflexivity. Qed.

(** [run r s k] succeeds exactly when [s] splits into a word of [r] and a
    rest the continuation accepts. *)
Lemma run_spec (r : regex) :
  ∀ (s : string) (k : string → bool),
    run r s k = true ↔ ∃ u v, s = u +:+ v ∧ lang r u ∧ k v = true.
Proof.
  induction r as [|p|r1 IH1 r2 IH2|r1 IH1 r2 IH2|n r1 IH1]; intros s k.
  - simpl. split.
    + intros Hk. by exists "", s.
    + intros (u & v & -> & -> & Hk). done.
  - simpl. destruct s as [|c s].
    + split; [done|]. intros (u & v & Hs & (c & -> & _) & _). discriminate.
    + rewrite andb_true_iff. split.
      * intros [Hp Hk]. exists (String c ""), s. eauto.
      * intros (u & v & Hs & (c' & -> & Hp) & Hk).
        injection Hs as -> ->. done.
  - change (run (Cat r1 r2) s k) with (run r1 s (λ s', run r2 s' k)).
    rewrite IH1. split.
    + intros (u & v & -> & Hu & Hv). apply IH2 in Hv as (u' & v' & -> & Hu' & Hk).
      exists (u +:+ u'), v'. rewrite string_app_assoc.
      split; [done|]. split; [|done]. by exists u, u'.
    + intros (w & v & -> & (u & u' & -> & Hu & Hu') & Hk).
      exists u, (u' +:+ v). rewrite string_app_assoc.
      split; [done|]. split; [done|]. apply IH2. by exists u', v.
  - simpl. rewrite orb_true_iff, IH1, IH2. split.
    + intros [(u & v & ? & ? & ?)|(u & v & ? & ? & ?)]; exists u, v; eauto.
    + intros (u & v & ? & [?|?] & ?); [left|right]; exists u, v; eauto.
  - revert s. induction n as [|n IHn]; intros s.
    + rewrite run_Rep_0. split.
      * intros Hk. by exists "", s.
      * intros (u & v & -> & -> & Hk). done.
    + rewrite run_Rep_S, IH1. split.
      * intros (u & v & -> & Hu & Hv).
        apply IHn in Hv as (u' & v' & -> & Hu' & Hk).
        exists (u +:+ u'), v'. rewrite string_app_assoc.
        split; [done|]. split; [|done]. apply lang_Rep_S. by exists u, u'.
      * intros (w & v & -> & (u & u' & -> & Hu & Hu')%lang_Rep_S & Hk).
        exists u, (u' +:+ v). rewrite string_app_assoc.
        split; [done|]. split; [done|]. apply IHn. by exists u', v.
Qed.

Lemma at_end_spec (s : string) : at_end s = true ↔ s = "".
Proof. by destruct s. Qed.

(** [/^r$/.test(s)] is membership in the language of [r]. *)
Lemma test_spec (r : regex) (s : string) : test r s = true ↔ lang r s.
Proof.
  unfold test. rewrite run_spec. split.
  - intros (u & v & -> & Hu & ->%at_end_spec). by rewrite string_app_nil_r.
  - intros Hs. exists s, "". by rewrite string_app_nil_r.
Qed.

(** The character class of the script is the set of hexadecimal
    characters. *)
Lemma hex_spec (c : ascii) : hex c = true ↔ Spec.hex_digit c.
Proof.
  unfold Spec.hex_digit.
  rewrite <- (bool_decide_spec (c ∈ _)).
  destruct c as [[] [] [] [] [] [] [] []]; vm_compute; done.
Qed.

Lemma lang_Rep_Class (n : nat) (p : ascii → bool) (w : string) :
  lang (Rep n (Class p)) w
  ↔ String.length w = n ∧ Forall (λ c, p c = true) (list_ascii_of_string w).
Proof.
  revert w. induction n as [|n IH]; intros w.
  - rewrite lang_Rep_0. split.
    + intros ->. by split; [|constructor].
    + intros [Hlen _]. by destruct w.
  - rewrite lang_Rep_S. split.
    + intros (u & v & -> & (c & -> & Hc) & [Hlen Hall]%IH).
      rewrite string_app_cons, string_app_nil_l. simpl.
      split; [by rewrite Hlen | by constructor].
    + intros [Hlen Hall]. destruct w as [|c w]; [done|].
      simpl in Hlen, Hall. apply Forall_cons in Hall as [Hc Hall].
      exists (String c ""), w. split; [done|].
      split; [by exists c|]. apply IH. split; [lia | done].
Qed.

Lemma lang_hex (n : nat) (w : string) :
  lang (Rep n (Class hex)) w ↔ Spec.hex_string n w.
Proof.
  rewrite lang_Rep_Class. unfold Spec.hex_string.
  split; intros [Hlen Hall]; (split; [done|]);
    eapply Forall_impl; try exact Hall; intros c; apply hex_spec.
Qed.

Lemma lang_zero_x (w : string) : lang zero_x w ↔ w = "0x".
Proof.
  unfold zero_x, Chr. rewrite lang_Cat. split.
  - intros (u & v & -> & (a & -> & Ha) & (b & -> & Hb)).
    apply bool_decide_eq_true in Ha, Hb. by subst.
  - intros ->. exists "0", "x". split; [done|].
    split; eexists; split; try done.
Qed.

(** The credential pattern of the script accepts the credentials of the
    specification. *)
Lemma private_key_re_spec (s : string) :
  test private_key_re s = true ↔ Spec.credential s.
Proof.
  rewrite test_spec. unfold private_key_re, Opt, Spec.credential.
  rewrite lang_Cat. split.
  - intros (u & v & -> & [Hu|Hu] & Hv%lang_hex).
    + apply lang_zero_x in Hu as ->. right. by exists v.
    + simpl in Hu. subst u. by left.
  - intros [Hs|(body & -> & Hbody)].
    + exists "", s. split; [done|]. split; [by right | by apply lang_hex].
    + exists "0x", body. split; [done|].
      split; [left; by apply lang_zero_x | by apply lang_hex].
Qed.

Lemma address_re_spec (s : string) :
  test address_re s = true ↔ ∃ body, s = "0x" +:+ body ∧ Spec.hex_string 40 body.
Proof.
  rewrite test_spec. unfold address_re. rewrite lang_Cat. split.
  - intros (u & v & -> & ->%lang_zero_x & Hv%lang_hex). by exists v.
  - intros (body & -> & Hbody). exists "0x", body.
    split; [done|]. split; [by apply lang_zero_x | by apply lang_hex].
Qed.

End RegexFacts.

(** ** validateEnvironment *)

Section ValidateEnvironment.
Import RegisterSchema.

Local Arguments JS.startsWith : simpl never.
Local Arguments Regex.test : simpl never.

Implicit Types env : gmap string string.

Lemma elem_of_collect_missing env (vars : list string) (v : string) :
  v ∈ collect_missing env vars ↔ v ∈ vars ∧ JS.truthy (env !! v) = false.
Proof.
  induction vars as [|x vars IH]; simpl.
  - split; [by intros ?%elem_of_nil | by intros [?%elem_of_nil _]].
  - destruct (JS.truthy (env !! x)) eqn:Hx; simpl;
      rewrite ?elem_of_cons, IH, ?elem_of_cons.
    + split; [tauto|]. intros [[->|Hin] Hv]; [congruence | done].
    + split.
      * intros [->|[Hin Hv]]; [by split; [left|] | by split; [right|]].
      * intros [[->|Hin] Hv]; [by left | by right].
Qed.

Lemma collect_missing_ext env1 env2 (vars : list string) :
  (∀ x, JS.truthy (env1 !! x) = JS.truthy (env2 !! x)) →
  collect_missing env1 vars = collect_missing env2 vars.
Proof.
  intros Hext. induction vars as [|x vars IH]; simpl; [done|].
  by rewrite Hext, IH.
Qed.

Lemma validateEnvironment_missing env :
  collect_missing env requiredVars ≠ [] →
  validateEnvironment env
  = ((logInfo "Validating environment variables...").1,
     Thrown (new_Error (missing_message (collect_missing env requiredVars)))).
Proof.
  intros Hm. unfold validateEnvironment.
  rewrite bool_decide_true
    by (destruct (collect_missing env requiredVars); [done | simpl; lia]).
  reflexivity.
Qed.

Lemma validateEnvironment_complete env :
  collect_missing env requiredVars = [] →
  result (validateEnvironment env)
  = if Regex.test Regex.private_key_re (getenv env "PRIVATE_KEY")
    then if Regex.test Regex.address_re (getenv env "SCHEMA_REGISTRY_ADDRESS")
         then Normal {| rpcUrl := getenv env "RPC_URL";
                        privateKey :=
                          if JS.startsWith (getenv env "PRIVATE_KEY") "0x"
                          then getenv env "PRIVATE_KEY"
                          else "0x" +:+ getenv env "PRIVATE_KEY";
                        schemaRegistryAddress :=
                          getenv env "SCHEMA_REGISTRY_ADDRESS" |}
         else Thrown (new_Error registry_address_message)
    else Thrown (new_Error private_key_message).
Proof.
  intros Hm. unfold validateEnvironment. rewrite Hm.
  destruct (Regex.test Regex.private_key_re _); [|reflexivity].
  destruct (Regex.test Regex.address_re _); reflexivity.
Qed.

Lemma missing_message_names (missing : list string) (v : string) :
  v ∈ missing → Spec.contains (missing_message missing) v.
Proof.
  intros Hv. unfold missing_message.
  by apply contains_app_r, contains_app_l, join_contains.
Qed.

Lemma credential_nonempty (key : string) : Spec.credential key → key ≠ "".
Proof.
  intros [[Hlen _]|(body & Hbody & _)] Hkey; rewrite Hkey in *;
    [done | discriminate Hbody].
Qed.

(** The missing-settings message names the settings that are missing and
    no other required setting. *)
Lemma missing_message_exact env (v : string) :
  v ∈ requiredVars → JS.truthy (env !! v) = true →
  JS.includes (missing_message (collect_missing env requiredVars)) v = false.
Proof.
  intros Hv Ht. unfold requiredVars in *.
  repeat (apply elem_of_cons in Hv as [->|Hv]); [| | |by apply elem_of_nil in Hv];
    simpl; rewrite ?Ht; simpl;
    repeat match goal with
           | |- context [JS.truthy (env !! ?k)] =>
               destruct (JS.truthy (env !! k))
           end; simpl; by vm_compute.
Qed.

(** C6: when one or more of the three required settings is absent,
    validation throws an error whose message names every absent setting
    (and names no required setting that has a value). *)
Theorem missing_settings_all_named env :
  (∃ v, v ∈ requiredVars ∧ env !! v = None) →
  ∃ msg,
    result (validateEnvironment env) = Thrown (new_Error msg)
    ∧ (∀ v, v ∈ requiredVars → env !! v = None → Spec.contains msg v)
    ∧ (∀ v, v ∈ requiredVars → JS.truthy (env !! v) = true →
            ¬ Spec.contains msg v).
Proof.
  intros (v0 & Hv0 & Habs0).
  exists (missing_message (collect_missing env requiredVars)).
  split; [|split].
  - rewrite validateEnvironment_missing; [done|].
    intros Hnil.
    assert (v0 ∈ collect_missing env requiredVars) as Hin
      by (apply elem_of_collect_missing; by rewrite Habs0).
    rewrite Hnil in Hin. by apply elem_of_nil in Hin.
  - intros v Hv Habs. apply missing_message_names.
    apply elem_of_collect_missing. by rewrite Habs.
  - intros v Hv Ht Hc%includes_spec.
    by rewrite missing_message_exact in Hc.
Qed.

Lemma missing_settings_all_named_witness :
  ∃ msg,
    result (validateEnvironment Sample.env_key_only) = Thrown (new_Error msg)
    ∧ (∀ v, v ∈ requiredVars → Sample.env_key_only !! v = None →
            Spec.contains msg v)
    ∧ (∀ v, v ∈ requiredVars → JS.truthy (Sample.env_key_only !! v) = true →
            ¬ Spec.contains msg v).
Proof.
  apply (missing_settings_all_named Sample.env_key_only).
  exists "RPC_URL". split; [apply list_elem_of_here | reflexivity].
Defined.

(** C10: a required setting whose value is the empty string is treated
    exactly like an absent one: validation behaves as on the
    configuration without it, and throws the missing-settings error,
    which names it; the format checks are not reached. *)
Theorem empty_setting_is_missing env (v : string) :
  v ∈ requiredVars → env !! v = Some "" →
  validateEnvironment env = validateEnvironment (delete v env)
  ∧ ∃ missing,
      v ∈ missing
      ∧ result (validateEnvironment env)
        = Thrown (new_Error (missing_message missing))
      ∧ Spec.contains (missing_message missing) v
      ∧ result (validateEnvironment env)
        ≠ Thrown (new_Error private_key_message)
      ∧ result (validateEnvironment env)
        ≠ Thrown (new_Error registry_address_message).
Proof.
  intros Hv Hempty.
  assert (v ∈ collect_missing env requiredVars) as Hin
    by (apply elem_of_collect_missing; by rewrite Hempty).
  assert (collect_missing env requiredVars ≠ []) as Hne
    by (intros Hnil; rewrite Hnil in Hin; by apply elem_of_nil in Hin).
  assert (collect_missing (delete v env) requiredVars
          = collect_missing env requiredVars) as Hsame.
  { apply collect_missing_ext. intros x.
    destruct (decide (x = v)) as [->|Hx].
    - by rewrite lookup_delete_eq, Hempty.
    - by rewrite lookup_delete_ne. }
  split.
  - rewrite (validateEnvironment_missing env) by done.
    rewrite (validateEnvironment_missing (delete v env)) by (by rewrite Hsame).
    by rewrite Hsame.
  - exists (collect_missing env requiredVars).
    rewrite validateEnvironment_missing by done.
    split; [done|]. split; [done|].
    split; [by apply missing_message_names|].
    split; intros [= Hmsg]; apply (f_equal (λ s, JS.startsWith s "M")) in Hmsg;
      by vm_compute in Hmsg.
Qed.

Lemma empty_setting_is_missing_witness :
  validateEnvironment Sample.env_empty_registry
  = validateEnvironment
      (delete "SCHEMA_REGISTRY_ADDRESS" Sample.env_empty_registry)
  ∧ ∃ missing,
      "SCHEMA_REGISTRY_ADDRESS" ∈ missing
      ∧ result (validateEnvironment Sample.env_empty_registry)
        = Thrown (new_Error (missing_message missing))
      ∧ Spec.contains (missing_message missing) "SCHEMA_REGISTRY_ADDRESS"
      ∧ result (validateEnvironment Sample.env_empty_registry)
        ≠ Thrown (new_Error private_key_message)
      ∧ result (validateEnvironment Sample.env_empty_registry)
        ≠ Thrown (new_Error registry_address_message).
Proof.
  apply (empty_setting_is_missing Sample.env_empty_registry).
  - do 2 apply list_elem_of_further. apply list_elem_of_here.
  - reflexivity.
Defined.

Lemma collect_missing_none env (url key addr : string) :
  env !! "RPC_URL" = Some url → url ≠ "" →
  env !! "PRIVATE_KEY" = Some key → key ≠ "" →
  env !! "SCHEMA_REGISTRY_ADDRESS" = Some addr → addr ≠ "" →
  collect_missing env requiredVars = [].
Proof.
  intros Hurl ? Hkey ? Haddr ?. unfold requiredVars. simpl.
  rewrite Hurl, Hkey, Haddr.
  by destruct url, key, addr.
Qed.

(** C5: with the other settings in order, validation accepts a credential
    exactly when it consists of 64 hexadecimal characters with an optional
    [0x] prefix (and rejects any other non-empty one with the format
    error); the credential of the returned configuration carries the
    prefix: it is the given one when that has the prefix, and the given one
    behind [0x] otherwise. *)
Theorem credential_accepted_iff env (url key addr : string) :
  env !! "RPC_URL" = Some url → url ≠ "" →
  env !! "PRIVATE_KEY" = Some key →
  env !! "SCHEMA_REGISTRY_ADDRESS" = Some addr →
  Regex.test Regex.address_re addr = true →
  ((∃ cfg, result (validateEnvironment env) = Normal cfg)
   ↔ Spec.credential key)
  ∧ (¬ Spec.credential key → key ≠ "" →
     result (validateEnvironment env) = Thrown (new_Error private_key_message))
  ∧ (∀ cfg, result (validateEnvironment env) = Normal cfg →
       Spec.prefixed (privateKey cfg)
       ∧ (Spec.prefixed key → privateKey cfg = key)
       ∧ (¬ Spec.prefixed key → privateKey cfg = "0x" +:+ key)).
Proof.
  intros Hurl Hurl_ne Hkey Haddr Haddr_ok.
  assert (addr ≠ "") as Haddr_ne by (intros ->; by vm_compute in Haddr_ok).
  destruct (decide (key = "")) as [->|Hkey_ne].
  - (* an empty credential counts as missing *)
    assert (collect_missing env requiredVars ≠ []) as Hne.
    { intros Hnil.
      assert ("PRIVATE_KEY" ∈ collect_missing env requiredVars) as Hin.
      { apply elem_of_collect_missing. rewrite Hkey. split; [|done].
        apply list_elem_of_further, list_elem_of_here. }
      rewrite Hnil in Hin. by apply elem_of_nil in Hin. }
    rewrite validateEnvironment_missing by done. simpl.
    split; [|split].
    + split; [by intros [cfg ?] | by intros ?%credential_nonempty].
    + done.
    + done.
  - rewrite validateEnvironment_complete
      by (by eapply collect_missing_none).
    unfold getenv. rewrite Hurl, Hkey, Haddr. simpl. rewrite Haddr_ok.
    destruct (Regex.test Regex.private_key_re key) eqn:Htest.
    + apply private_key_re_spec in Htest.
      split; [|split].
      * split; [done | eauto].
      * done.
      * intros cfg [= <-]. simpl.
        destruct (JS.startsWith key "0x") eqn:Hpre; simpl.
        -- apply startsWith_prefixed in Hpre.
           split; [done|]. split; [done|]. intros Hnot. by destruct Hnot.
        -- assert (¬ Spec.prefixed key) as Hnot
             by (rewrite <- startsWith_prefixed; congruence).
           split; [by exists key|]. by split.
    + assert (¬ Spec.credential key) as Hnot
        by (rewrite <- private_key_re_spec; congruence).
      split; [|split].
      * split; [by intros [cfg ?] | done].
      * done.
      * done.
Qed.

Lemma credential_accepted_iff_witness :
  ((∃ cfg, result (validateEnvironment Sample.env) = Normal cfg)
   ↔ Spec.credential Sample.key64)
  ∧ (¬ Spec.credential Sample.key64 → Sample.key64 ≠ "" →
     result (validateEnvironment Sample.env)
     = Thrown (new_Error private_key_message))
  ∧ (∀ cfg, result (validateEnvironment Sample.env) = Normal cfg →
       Spec.prefixed (privateKey cfg)
       ∧ (Spec.prefixed Sample.key64 → privateKey cfg = Sample.key64)
       ∧ (¬ Spec.prefixed Sample.key64 →
          privateKey cfg = "0x" +:+ Sample.key64)).
Proof.
  apply (credential_accepted_iff Sample.env
           "https://sepolia.base.org" Sample.key64 Sample.registry).
  - reflexivity.
  - discriminate.
  - reflexivity.
  - reflexivity.
  - vm_compute. reflexivity.
Defined.

End ValidateEnvironment.

(** ** Computations: completion and counted events *)

Section EffFacts.
Context {A B : Type}.
Implicit Types (m : M A) (f : A → M B) (p : event → bool).

Lemma result_bind m f :
  result (m ≫= f)
  = match result m with
    | Normal a => result (f a)
    | Thrown e => Thrown e
    | Exited c => Exited c
    end.
Proof. destruct m as [t [a|e|c]]; reflexivity. Qed.

Lemma trace_bind m f :
  trace (m ≫= f)
  = trace m ++ match result m with
               | Normal a => trace (f a)
               | _ => []
               end.
Proof.
  destruct m as [t [a|e|c]]; unfold mbind, M_bind, Eff.bind, trace, result;
    simpl; by rewrite ?app_nil_r.
Qed.

Lemma result_try_catch m (h : error → M A) :
  result (try_catch m h)
  = match result m with
    | Thrown e => result (h e)
    | r => r
    end.
Proof. destruct m as [t [a|e|c]]; reflexivity. Qed.

Lemma trace_try_catch m (h : error → M A) :
  trace (try_catch m h)
  = trace m ++ match result m with
               | Thrown e => trace (h e)
               | _ => []
               end.
Proof.
  destruct m as [t [a|e|c]]; unfold try_catch, trace, result;
    simpl; by rewrite ?app_nil_r.
Qed.

Lemma occurrences_app p (t1 t2 : list event) :
  occurrences p (t1 ++ t2) = occurrences p t1 + occurrences p t2.
Proof. unfold occurrences. by rewrite filter_app, length_app. Qed.

Lemma no_exit_bind m f :
  no_exit m → (∀ a, no_exit (f a)) → no_exit (m ≫= f).
Proof.
  intros Hm Hf c. rewrite result_bind.
  destruct (result m) as [a|e|c'] eqn:Hr; [apply Hf | done |].
  by destruct (Hm c').
Qed.

Lemma no_exit_try_catch m (h : error → M A) :
  no_exit m → (∀ e, no_exit (h e)) → no_exit (try_catch m h).
Proof.
  intros Hm Hh c. rewrite result_try_catch.
  destruct (result m) as [a|e|c'] eqn:Hr; [done | apply Hh |].
  by destruct (Hm c').
Qed.

Lemma no_exit_call (ev : event) (o : outcome A) : no_exit (call ev o).
Proof. by destruct o. Qed.

Lemma calls_le_bind p (n1 n2 : nat) m f :
  calls_le p n1 m → (∀ a, calls_le p n2 (f a)) →
  calls_le p (n1 + n2) (m ≫= f).
Proof.
  unfold calls_le. intros Hm Hf. rewrite trace_bind, occurrences_app.
  destruct (result m) as [a|e|c]; [specialize (Hf a) | |];
    unfold occurrences in *; simpl; lia.
Qed.

Lemma calls_le_try_catch p (n1 n2 : nat) m (h : error → M A) :
  calls_le p n1 m → (∀ e, calls_le p n2 (h e)) →
  calls_le p (n1 + n2) (try_catch m h).
Proof.
  unfold calls_le. intros Hm Hh. rewrite trace_try_catch, occurrences_app.
  destruct (result m) as [a|e|c]; [| specialize (Hh e) |];
    unfold occurrences in *; simpl; lia.
Qed.

Lemma calls_le_call_other p (n : nat) (ev : event) (o : outcome A) :
  p ev = false → calls_le p n (call ev o).
Proof.
  intros Hp. unfold calls_le, occurrences.
  destruct o; run_eff; rewrite filter_cons_False by (by rewrite Hp);
    simpl; lia.
Qed.

Lemma calls_le_call_once p (ev : event) (o : outcome A) :
  calls_le p 1 (call ev o).
Proof.
  unfold calls_le, occurrences. destruct o; run_eff;
    (destruct (p ev) eqn:Hp;
     [rewrite filter_cons_True by done | rewrite filter_cons_False by congruence]);
    simpl; lia.
Qed.

End EffFacts.

(** Step through a computation with the equations of [bind] and
    [try_catch]; what a call to the outside does stays as it is, and is
    mentioned once per equation. *)
Ltac eff_cbn :=
  cbn [result trace fst snd emit call mret M_ret Eff.ret throw process_exit
       RegisterSchema.log RegisterSchema.log_ RegisterSchema.logError
       RegisterSchema.logSuccess RegisterSchema.logInfo
       RegisterSchema.logWarning RegisterSchema.report_uid].

Ltac eff_step :=
  eff_cbn;
  repeat (first [ rewrite trace_bind | rewrite result_bind
                | rewrite trace_try_catch | rewrite result_try_catch ];
          eff_cbn).

(** ** registerSchema *)

Section RegisterSchemaFacts.
Import RegisterSchema.

Local Arguments second_topic_of_first_log : simpl never.

Implicit Types (w : world) (e : error).

Lemma registerSchema_failure w (signer address : string) e :
  Spec.registry_ready w signer address → Spec.submission_fails w e →
  result (registerSchema w signer address) = Thrown (submission_error e).
Proof.
  intros [Hnew Hconn] Hfail. unfold registerSchema.
  rewrite Hnew, Hconn.
  destruct Hfail as [Hreg|(tx & Hreg & Hwait)].
  - unfold Sample.request in Hreg. rewrite Hreg. reflexivity.
  - unfold Sample.request in Hreg. rewrite Hreg. run_eff. rewrite Hwait.
    reflexivity.
Qed.

Lemma second_topic_spec (r : receipt) (uid : string) :
  second_topic_of_first_log r = Some uid
  ↔ Spec.second_topic_of_first_log r uid.
Proof.
  unfold second_topic_of_first_log, Spec.second_topic_of_first_log.
  destruct (logs r) as [[|first rest]|].
  - split; [done | by intros (? & ? & ? & [=] & _)].
  - destruct (topics first) as [ts|] eqn:Hts.
    + case_bool_decide as Hlen.
      * split; [by eauto 6|]. intros (? & ? & ? & [= <- <-] & Hts' & ?).
        rewrite Hts in Hts'. by injection Hts' as <-.
      * split; [done|]. intros (? & ? & ? & [= <- <-] & Hts' & Hget).
        rewrite Hts in Hts'. injection Hts' as <-.
        apply lookup_lt_Some in Hget. lia.
    + split; [done|]. intros (? & ? & ? & [= <- <-] & Hts' & _).
      by rewrite Hts in Hts'.
  - split; [done | by intros (? & ? & ? & [=] & _)].
Qed.

Lemma contains_nonempty (text sub : string) :
  Spec.contains text sub → sub ≠ "" → JS.truthy (Some text) = true.
Proof.
  intros (before & after & ->) Hsub.
  destruct before; [destruct sub; [done|] |]; reflexivity.
Qed.

(** C1, as the code has it: a submission error whose text contains
    "already exists" is reported as the duplicate-schema error, whatever
    its other properties, when its code is none of the three codes that
    the handler tests before it looks at the text. *)
Theorem already_exists_mapping w (signer address : string) e (text : string) :
  Spec.registry_ready w signer address → Spec.submission_fails w e →
  message e = Some text → Spec.contains text "already exists" →
  code e ≠ Some "INSUFFICIENT_FUNDS" →
  code e ≠ Some "NONCE_EXPIRED" →
  code e ≠ Some "REPLACEMENT_UNDERPRICED" →
  result (registerSchema w signer address)
  = Thrown (new_Error already_exists_message).
Proof.
  intros Hready Hfail Hmsg Htext Hc1 Hc2 Hc3.
  rewrite (registerSchema_failure w signer address e) by done.
  unfold submission_error, code_is, mentions_already_exists.
  rewrite !bool_decide_false by done. rewrite Hmsg.
  rewrite (contains_nonempty text "already exists") by done.
  apply includes_spec in Htext. rewrite Htext. reflexivity.
Qed.

Lemma already_exists_mapping_witness :
  result (registerSchema (Sample.world_with (Throws Sample.duplicate))
            Sample.key64 Sample.registry)
  = Thrown (new_Error already_exists_message).
Proof.
  apply (already_exists_mapping
           (Sample.world_with (Throws Sample.duplicate))
           Sample.key64 Sample.registry Sample.duplicate
           "execution reverted: schema already exists").
  - split; reflexivity.
  - left. reflexivity.
  - reflexivity.
  - exists "execution reverted: schema ", "". reflexivity.
  - discriminate.
  - discriminate.
  - discriminate.
Defined.

(** C1, as the specification states it, fails: an error with code
    [INSUFFICIENT_FUNDS] whose text contains "already exists" is reported
    as a funding error. *)
Lemma already_exists_not_regardless_of_code :
  ¬ (∀ w (signer address : string) e (text : string),
       Spec.registry_ready w signer address → Spec.submission_fails w e →
       message e = Some text → Spec.contains text "already exists" →
       result (registerSchema w signer address)
       = Thrown (new_Error already_exists_message)).
Proof.
  intros Hclaim.
  specialize (Hclaim (Sample.world_with (Throws Sample.funds_and_duplicate))
                Sample.key64 Sample.registry Sample.funds_and_duplicate
                "schema already exists").
  assert (result (registerSchema
                    (Sample.world_with (Throws Sample.funds_and_duplicate))
                    Sample.key64 Sample.registry)
          = Thrown (new_Error insufficient_funds_message)) as Hcode
    by (vm_compute; reflexivity).
  rewrite Hcode in Hclaim.
  assert (Thrown (A := option string) (new_Error insufficient_funds_message)
          = Thrown (new_Error already_exists_message)) as Heq.
  { apply Hclaim.
    - split; reflexivity.
    - left. reflexivity.
    - reflexivity.
    - exists "schema ", "". reflexivity. }
  by vm_compute in Heq.
Qed.

(** C7: when the registry answers with a plain string, the operation
    returns exactly that string and never waits for a transaction. *)
Theorem plain_string_response w (signer address s : string) :
  Spec.registry_ready w signer address →
  register w Sample.request = Returns (Uid s) →
  result (registerSchema w signer address) = Normal (Some s)
  ∧ occurrences is_Wait (trace (registerSchema w signer address)) = 0.
Proof.
  intros [Hnew Hconn] Hreg. unfold registerSchema.
  unfold Sample.request in Hreg. rewrite Hnew, Hconn, Hreg.
  split; reflexivity.
Qed.

Lemma plain_string_response_witness :
  result (registerSchema (Sample.world_with (Returns (Uid Sample.uid)))
            Sample.key64 Sample.registry) = Normal (Some Sample.uid)
  ∧ occurrences is_Wait
      (trace (registerSchema (Sample.world_with (Returns (Uid Sample.uid)))
                Sample.key64 Sample.registry)) = 0.
Proof.
  apply (plain_string_response
           (Sample.world_with (Returns (Uid Sample.uid)))
           Sample.key64 Sample.registry Sample.uid).
  - split; reflexivity.
  - reflexivity.
Defined.




End RegisterSchemaFacts.


Lemma no_exit_emit (ev : event) : no_exit (emit ev).
Proof. done. Qed.

Lemma no_exit_ret {A} (a : A) : no_exit (mret a).
Proof. done. Qed.

Lemma no_exit_throw {A} (e : error) : no_exit (throw (A := A) e).
Proof. done. Qed.

Lemma calls_le_emit_other (p : event → bool) (n : nat) (ev : event) :
  p ev = false → calls_le p n (emit ev).
Proof.
  intros Hp. unfold calls_le, occurrences. run_eff.
  rewrite filter_cons_False by (by rewrite Hp). simpl. lia.
Qed.

Lemma calls_le_ret (p : event → bool) (n : nat) {A} (a : A) :
  calls_le p n (mret a).
Proof. unfold calls_le, occurrences. simpl. lia. Qed.

Lemma calls_le_throw (p : event → bool) (n : nat) {A} (e : error) :
  calls_le p n (throw (A := A) e).
Proof. unfold calls_le, occurrences. simpl. lia. Qed.

Lemma calls_le_exit (p : event → bool) (n : nat) {A} (c : Z) :
  calls_le p n (process_exit (A := A) c).
Proof. unfold calls_le, occurrences. simpl. lia. Qed.

Lemma calls_le_bind_l {A B} (p : event → bool) (n : nat)
    (m : M A) (f : A → M B) :
  calls_le p 0 m → (∀ a, calls_le p n (f a)) → calls_le p n (m ≫= f).
Proof. apply (calls_le_bind p 0 n). Qed.

Lemma calls_le_bind_r {A B} (p : event → bool) (n : nat)
    (m : M A) (f : A → M B) :
  calls_le p n m → (∀ a, calls_le p 0 (f a)) → calls_le p n (m ≫= f).
Proof.
  intros Hm Hf. pose proof (calls_le_bind p n 0 m f Hm Hf) as H.
  by rewrite Nat.add_0_r in H.
Qed.

Lemma calls_le_try_catch_l {A} (p : event → bool) (n : nat)
    (m : M A) (h : error → M A) :
  calls_le p 0 m → (∀ e, calls_le p n (h e)) → calls_le p n (try_catch m h).
Proof. apply (calls_le_try_catch p 0 n). Qed.

Lemma calls_le_try_catch_r {A} (p : event → bool) (n : nat)
    (m : M A) (h : error → M A) :
  calls_le p n m → (∀ e, calls_le p 0 (h e)) → calls_le p n (try_catch m h).
Proof.
  intros Hm Hh. pose proof (calls_le_try_catch p n 0 m h Hm Hh) as H.
  by rewrite Nat.add_0_r in H.
Qed.

(** Follow the structure of a computation to show that it does not end
    the process. *)
Ltac no_exit :=
  cbv zeta;
  lazymatch goal with
  | |- no_exit (mbind _ _) => apply no_exit_bind; [no_exit | intros ?; no_exit]
  | |- no_exit (try_catch _ _) =>
      apply no_exit_try_catch; [no_exit | intros ?; no_exit]
  | |- no_exit (if ?b then _ else _) => destruct b; no_exit
  | |- no_exit (match ?x with _ => _ end) => destruct x; no_exit
  | |- no_exit (call _ _) => apply no_exit_call
  | |- no_exit (emit _) => apply no_exit_emit
  | |- no_exit (mret _) => apply no_exit_ret
  | |- no_exit (throw _) => apply no_exit_throw
  | |- no_exit (RegisterSchema.log _ _) => apply no_exit_emit
  | |- no_exit (RegisterSchema.log_ _) => apply no_exit_emit
  | |- no_exit (RegisterSchema.logError _) => apply no_exit_emit
  | |- no_exit (RegisterSchema.logSuccess _) => apply no_exit_emit
  | |- no_exit (RegisterSchema.logInfo _) => apply no_exit_emit
  | |- no_exit (RegisterSchema.logWarning _) => apply no_exit_emit
  | |- no_exit (RegisterSchema.report_uid _) =>
      unfold RegisterSchema.report_uid; no_exit
  end.

(** Follow the structure of a computation to bound how often it performs
    an event of a kind: through a sequence, either the first part is free
    of the event or the rest is. *)
Ltac count :=
  cbv zeta;
  lazymatch goal with
  | |- calls_le _ 0 (mbind _ _) =>
      apply calls_le_bind_l; [count | intros ?; count]
  | |- calls_le _ 0 (try_catch _ _) =>
      apply calls_le_try_catch_l; [count | intros ?; count]
  | |- calls_le _ _ (mbind _ _) =>
      first [ apply calls_le_bind_l; [solve [count] | intros ?; count]
            | apply calls_le_bind_r; [count | intros ?; solve [count]] ]
  | |- calls_le _ _ (try_catch _ _) =>
      first [ apply calls_le_try_catch_l; [solve [count] | intros ?; count]
            | apply calls_le_try_catch_r; [count | intros ?; solve [count]] ]
  | |- calls_le _ _ (if ?b then _ else _) => destruct b; count
  | |- calls_le _ _ (match ?x with _ => _ end) => destruct x; count
  | |- calls_le _ _ (call _ _) =>
      first [ apply calls_le_call_other; reflexivity
            | apply calls_le_call_once ]
  | |- calls_le _ _ (emit _) => apply calls_le_emit_other; reflexivity
  | |- calls_le _ _ (mret _) => apply calls_le_ret
  | |- calls_le _ _ (throw _) => apply calls_le_throw
  | |- calls_le _ _ (process_exit _) => apply calls_le_exit
  | |- calls_le _ _ (RegisterSchema.log _ _) =>
      apply calls_le_emit_other; reflexivity
  | |- calls_le _ _ (RegisterSchema.log_ _) =>
      apply calls_le_emit_other; reflexivity
  | |- calls_le _ _ (RegisterSchema.logError _) =>
      apply calls_le_emit_other; reflexivity
  | |- calls_le _ _ (RegisterSchema.logSuccess _) =>
      apply calls_le_emit_other; reflexivity
  | |- calls_le _ _ (RegisterSchema.logInfo _) =>
      apply calls_le_emit_other; reflexivity
  | |- calls_le _ _ (RegisterSchema.logWarning _) =>
      apply calls_le_emit_other; reflexivity
  | |- calls_le _ _ (RegisterSchema.report_uid _) =>
      unfold RegisterSchema.report_uid; count
  | |- calls_le _ _ (RegisterSchema.validateEnvironment _) =>
      unfold RegisterSchema.validateEnvironment; count
  | |- calls_le _ _ (RegisterSchema.connectToNetwork _ _) =>
      unfold RegisterSchema.connectToNetwork; count
  | |- calls_le _ _ (RegisterSchema.registerSchema _ _ _) =>
      unfold RegisterSchema.registerSchema; count
  end.

(** ** main *)

Section MainFacts.
Import RegisterSchema.

Implicit Types (env : gmap string string) (w : world).

Lemma validateEnvironment_no_exit env : no_exit (validateEnvironment env).
Proof. unfold validateEnvironment. no_exit. Qed.

Lemma connectToNetwork_no_exit w (cfg : config) :
  no_exit (connectToNetwork w cfg).
Proof. unfold connectToNetwork. no_exit. Qed.

Lemma registerSchema_no_exit w (signer address : string) :
  no_exit (registerSchema w signer address).
Proof. unfold registerSchema. no_exit. Qed.

Lemma main_calls_le (p : event → bool) env w :
  p ∈ [is_GetNetwork; is_Register; is_Wait] → calls_le p 1 (main env w).
Proof.
  intros Hp. unfold main.
  repeat (apply elem_of_cons in Hp as [->|Hp]); [| | |by apply elem_of_nil in Hp];
    count.
Qed.

Lemma main_result env w :
  result (main env w)
  = match result (validateEnvironment env) with
    | Normal cfg =>
        match result (connectToNetwork w cfg) with
        | Normal conn =>
            match result (registerSchema w (signer conn)
                            (schemaRegistryAddress cfg)) with
            | Normal _ => Exited 0
            | Thrown _ => Exited 1
            | Exited c => Exited c
            end
        | Thrown _ => Exited 1
        | Exited c => Exited c
        end
    | Thrown _ => Exited 1
    | Exited c => Exited c
    end.
Proof.
  unfold main.
  destruct (validateEnvironment env) as [t1 [cfg|e|c]]; run_eff;
    [| by destruct (_ && _) | done].
  destruct (connectToNetwork w cfg) as [t2 [conn|e|c]]; run_eff;
    [| by destruct (_ && _) | done].
  destruct (registerSchema w (signer conn) (schemaRegistryAddress cfg))
    as [t3 [uid|e|c]]; run_eff; [done | by destruct (_ && _) | done].
Qed.

(** C8: the process exits with code 0 when validation, connection and
    submission all succeed, and with code 1 otherwise; nothing is retried:
    the network is asked, the schema submitted and a transaction waited
    for at most once. *)
Theorem main_exit_code env w :
  (Spec.all_stages_succeed env w → exit_code (main env w) = Some 0%Z)
  ∧ (¬ Spec.all_stages_succeed env w → exit_code (main env w) = Some 1%Z)
  ∧ occurrences is_GetNetwork (trace (main env w)) ≤ 1
  ∧ occurrences is_Register (trace (main env w)) ≤ 1
  ∧ occurrences is_Wait (trace (main env w)) ≤ 1.
Proof.
  split; [|split; [|repeat split]].
  - intros (cfg & conn & uid & Hv & Hc & Hr).
    unfold exit_code. by rewrite main_result, Hv, Hc, Hr.
  - intros Hnot. unfold exit_code. rewrite main_result.
    destruct (result (validateEnvironment env)) as [cfg|e|c] eqn:Hv;
      [| done | by destruct (validateEnvironment_no_exit env c)].
    destruct (result (connectToNetwork w cfg)) as [conn|e|c] eqn:Hc;
      [| done | by destruct (connectToNetwork_no_exit w cfg c)].
    destruct (result (registerSchema w (signer conn)
                        (schemaRegistryAddress cfg))) as [uid|e|c] eqn:Hr;
      [| done | by destruct (registerSchema_no_exit w (signer conn)
                               (schemaRegistryAddress cfg) c)].
    destruct Hnot. by exists cfg, conn, uid.
  - apply main_calls_le, list_elem_of_here.
  - apply main_calls_le, list_elem_of_further, list_elem_of_here.
  - apply main_calls_le. do 2 apply list_elem_of_further. apply list_elem_of_here.
Qed.

Lemma main_exit_code_witness :
  exit_code (main Sample.env (Sample.world_with (Returns (Uid Sample.uid))))
  = Some 0%Z.
Proof.
  apply (main_exit_code Sample.env
           (Sample.world_with (Returns (Uid Sample.uid)))).
  exists {| rpcUrl := "https://sepolia.base.org";
            privateKey := "0x" +:+ Sample.key64;
            schemaRegistryAddress := Sample.registry |},
         {| provider := "https://sepolia.base.org";
            signer := "0x" +:+ Sample.key64 |},
         (Some Sample.uid).
  repeat split; vm_compute; reflexivity.
Defined.

End MainFacts.

(** ** The HTTP service *)

Section ServerFacts.
Import Server.

(** C3: when the connectivity check resolves true, the liveness route
    answers 200 with [database] equal to "connected"; when the check
    throws, it answers 503 with [status] equal to "unhealthy". *)
Theorem health_connected_or_unhealthy (now : string) :
  (∃ body,
     responses (trace (health (Returns true) now)) = [(200, body)]
     ∧ field "database" body = Some "connected")
  ∧ (∀ e, ∃ body,
       responses (trace (health (Throws e) now)) = [(503, body)]
       ∧ field "status" body = Some "unhealthy").
Proof.
  split.
  - eexists. split; reflexivity.
  - intros e. eexists. split; reflexivity.
Qed.

(** C9: when the connectivity check resolves false, the liveness route
    still answers 200 with [status] equal to "healthy", and reports
    [database] as "disconnected". *)
Theorem health_resolved_false (now : string) :
  ∃ body,
    responses (trace (health (Returns false) now)) = [(200, body)]
    ∧ field "status" body = Some "healthy"
    ∧ field "database" body = Some "disconnected".
Proof. eexists. repeat split; reflexivity. Qed.

(** C2, as the code runs: the SIGTERM listener prints its first line and
    then raises a [ReferenceError], because no scope binds [server]; the
    listener opened at start-up is never closed. *)
Theorem sigterm_handler_raises (env : gmap string string) :
  result on_SIGTERM = Thrown (ReferenceError "server")
  ∧ occurrences is_Close (trace on_SIGTERM) = 0
  ∧ listening (trace (start env)) = true
  ∧ listening (trace (start env;; on_SIGTERM)) = true.
Proof. repeat split; vm_compute; reflexivity. Qed.

End ServerFacts.

(** ** validateEnvironment: the registry address, the order of the
    checks, and the configuration it returns *)

Section ValidateEnvironmentMore.
Import RegisterSchema.

Local Arguments JS.startsWith : simpl never.
Local Arguments Regex.test : simpl never.

Implicit Types env : gmap string string.

Lemma collect_missing_same env1 env2 (vars : list string) :
  (∀ v, v ∈ vars → env1 !! v = env2 !! v) →
  collect_missing env1 vars = collect_missing env2 vars.
Proof.
  induction vars as [|x vars IH]; intros Hsame; simpl; [done|].
  rewrite (Hsame x) by apply list_elem_of_here.
  rewrite IH by (intros v Hv; by apply Hsame, list_elem_of_further).
  done.
Qed.

Lemma collect_missing_nil env (v : string) :
  collect_missing env requiredVars = [] → v ∈ requiredVars →
  ∃ s, env !! v = Some s ∧ s ≠ "".
Proof.
  intros Hnil Hv. apply truthy_spec.
  destruct (JS.truthy (env !! v)) eqn:Ht; [done|].
  assert (v ∈ collect_missing env requiredVars) as Hin
    by (by apply elem_of_collect_missing).
  rewrite Hnil in Hin. by apply elem_of_nil in Hin.
Qed.

(** What a successful validation says about the configuration it read. *)
Lemma validateEnvironment_inv env (cfg : config) :
  result (validateEnvironment env) = Normal cfg →
  ∃ url key addr,
    env !! "RPC_URL" = Some url ∧ url ≠ ""
    ∧ env !! "PRIVATE_KEY" = Some key
    ∧ env !! "SCHEMA_REGISTRY_ADDRESS" = Some addr
    ∧ Regex.test Regex.private_key_re key = true
    ∧ Regex.test Regex.address_re addr = true
    ∧ cfg = {| rpcUrl := url;
               privateKey := if JS.startsWith key "0x" then key
                             else "0x" +:+ key;
               schemaRegistryAddress := addr |}.
Proof.
  intros Hok.
  destruct (collect_missing env requiredVars) as [|v vs] eqn:Hm.
  - destruct (collect_missing_nil env "RPC_URL" Hm) as (url & Hurl & Hurl_ne);
      [apply list_elem_of_here|].
    destruct (collect_missing_nil env "PRIVATE_KEY" Hm) as (key & Hkey & _);
      [apply list_elem_of_further, list_elem_of_here|].
    destruct (collect_missing_nil env "SCHEMA_REGISTRY_ADDRESS" Hm)
      as (addr & Haddr & _);
      [do 2 apply list_elem_of_further; apply list_elem_of_here|].
    rewrite validateEnvironment_complete in Hok by done.
    unfold getenv in Hok. rewrite Hurl, Hkey, Haddr in Hok. simpl in Hok.
    destruct (Regex.test Regex.private_key_re key) eqn:Hkey_ok; [|done].
    destruct (Regex.test Regex.address_re addr) eqn:Haddr_ok; [|done].
    injection Hok as <-. exists url, key, addr. repeat split; done.
  - rewrite validateEnvironment_missing in Hok by (by rewrite Hm). done.
Qed.

Lemma hex_string_not_prefixed (n : nat) (s : string) :
  Spec.hex_string n s → JS.startsWith s "0x" = false.
Proof.
  intros [_ Hall]. destruct (JS.startsWith s "0x") eqn:Hpre; [|done].
  apply startsWith_spec in Hpre as [rest ->].
  rewrite string_app_chars in Hall. simpl in Hall.
  apply Forall_cons in Hall as [_ Hall]. apply Forall_cons in Hall as [Hx _].
  apply hex_spec in Hx. by vm_compute in Hx.
Qed.

(** The registry address is accepted exactly when it is [0x] followed by
    40 hexadecimal characters; any other non-empty address is refused with
    the address format error. *)
Theorem registry_address_accepted_iff env (url key addr : string) :
  env !! "RPC_URL" = Some url → url ≠ "" →
  env !! "PRIVATE_KEY" = Some key → Spec.credential key →
  env !! "SCHEMA_REGISTRY_ADDRESS" = Some addr → addr ≠ "" →
  ((∃ cfg, result (validateEnvironment env) = Normal cfg)
   ↔ ∃ body, addr = "0x" +:+ body ∧ Spec.hex_string 40 body)
  ∧ ((¬ ∃ body, addr = "0x" +:+ body ∧ Spec.hex_string 40 body) →
     result (validateEnvironment env)
     = Thrown (new_Error registry_address_message)).
Proof.
  intros Hurl Hurl_ne Hkey Hcred Haddr Haddr_ne.
  rewrite validateEnvironment_complete
    by (eapply collect_missing_none; eauto using credential_nonempty).
  unfold getenv. rewrite Hurl, Hkey, Haddr. simpl.
  apply private_key_re_spec in Hcred. rewrite Hcred.
  rewrite <- address_re_spec.
  destruct (Regex.test Regex.address_re addr); split.
  - split; [done | eauto].
  - intros Hnot. by destruct Hnot.
  - split; [by intros [cfg ?] | done].
  - done.
Qed.

Lemma registry_address_accepted_iff_witness :
  ((∃ cfg, result (validateEnvironment Cases.env_bad_registry) = Normal cfg)
   ↔ ∃ body, "4200000000000000000000000000000000000020" = "0x" +:+ body
             ∧ Spec.hex_string 40 body)
  ∧ ((¬ ∃ body, "4200000000000000000000000000000000000020" = "0x" +:+ body
                ∧ Spec.hex_string 40 body) →
     result (validateEnvironment Cases.env_bad_registry)
     = Thrown (new_Error registry_address_message)).
Proof.
  apply (registry_address_accepted_iff Cases.env_bad_registry
           "https://sepolia.base.org" Sample.key64
           "4200000000000000000000000000000000000020").
  - reflexivity.
  - discriminate.
  - reflexivity.
  - apply private_key_re_spec. vm_compute. reflexivity.
  - reflexivity.
  - discriminate.
Defined.

(** The credential is checked before the registry address: a malformed
    credential is reported with the credential format error, whatever the
    registry address is. *)
Theorem credential_checked_before_address env (url key addr : string) :
  env !! "RPC_URL" = Some url → url ≠ "" →
  env !! "PRIVATE_KEY" = Some key → key ≠ "" →
  env !! "SCHEMA_REGISTRY_ADDRESS" = Some addr → addr ≠ "" →
  ¬ Spec.credential key →
  result (validateEnvironment env) = Thrown (new_Error private_key_message).
Proof.
  intros Hurl ? Hkey ? Haddr ? Hnot.
  rewrite validateEnvironment_complete by (by eapply collect_missing_none).
  unfold getenv. rewrite Hkey. simpl.
  rewrite <- private_key_re_spec in Hnot.
  by destruct (Regex.test Regex.private_key_re key).
Qed.

Lemma credential_checked_before_address_witness :
  result (validateEnvironment
            (<[ "SCHEMA_REGISTRY_ADDRESS" := "nowhere" ]> Cases.env_bad_key))
  = Thrown (new_Error private_key_message).
Proof.
  apply (credential_checked_before_address
           (<[ "SCHEMA_REGISTRY_ADDRESS" := "nowhere" ]> Cases.env_bad_key)
           "https://sepolia.base.org" "my-secret-key" "nowhere").
  - reflexivity.
  - discriminate.
  - reflexivity.
  - discriminate.
  - reflexivity.
  - discriminate.
  - rewrite <- private_key_re_spec. vm_compute. discriminate.
Defined.

(** Validation reads the three required settings and nothing else: two
    configurations that agree on them are treated alike. *)
Theorem validation_reads_required_only env1 env2 :
  Observe.same_required env1 env2 →
  validateEnvironment env1 = validateEnvironment env2.
Proof.
  intros Hsame. unfold validateEnvironment, getenv.
  rewrite (collect_missing_same env1 env2 requiredVars Hsame).
  rewrite (Hsame "RPC_URL") by apply list_elem_of_here.
  rewrite (Hsame "PRIVATE_KEY")
    by apply list_elem_of_further, list_elem_of_here.
  rewrite (Hsame "SCHEMA_REGISTRY_ADDRESS")
    by (do 2 apply list_elem_of_further; apply list_elem_of_here).
  reflexivity.
Qed.

Lemma validation_reads_required_only_witness :
  validateEnvironment Sample.env = validateEnvironment Cases.env_debug.
Proof.
  apply (validation_reads_required_only Sample.env Cases.env_debug).
  intros v Hv. unfold requiredVars in Hv.
  repeat (apply elem_of_cons in Hv as [->|Hv]);
    [reflexivity | reflexivity | reflexivity | by apply elem_of_nil in Hv].
Defined.

(** Normalising is idempotent: a configuration whose credential is
    replaced by the normalised one validates to the same result. *)
Theorem normalised_credential_validates env (cfg : config) :
  result (validateEnvironment env) = Normal cfg →
  result (validateEnvironment (<[ "PRIVATE_KEY" := privateKey cfg ]> env))
  = Normal cfg.
Proof.
  intros (url & key & addr & Hurl & Hurl_ne & Hkey & Haddr & Hkey_ok
          & Haddr_ok & ->)%validateEnvironment_inv.
  cbn [privateKey].
  set (key' := if JS.startsWith key "0x" then key else "0x" +:+ key).
  assert (Spec.credential key' ∧ JS.startsWith key' "0x" = true)
    as [Hcred' Hpre'].
  { apply private_key_re_spec in Hkey_ok as Hcred. unfold key'.
    destruct (JS.startsWith key "0x") eqn:Hpre; [done|].
    split; [|done]. destruct Hcred as [Hhex|(body & -> & _)].
    - right. by exists key.
    - done. }
  assert (addr ≠ "") as Haddr_ne by (intros ->; by vm_compute in Haddr_ok).
  rewrite validateEnvironment_complete.
  - unfold getenv.
    rewrite lookup_insert_eq, !lookup_insert_ne by done.
    rewrite Hurl, Haddr. simpl.
    apply private_key_re_spec in Hcred'. by rewrite Hcred', Haddr_ok, Hpre'.
  - eapply (collect_missing_none _ url key' addr); try done.
    + by rewrite lookup_insert_ne.
    + by rewrite lookup_insert_eq.
    + by apply credential_nonempty.
    + by rewrite lookup_insert_ne.
Qed.

Lemma normalised_credential_validates_witness :
  result (validateEnvironment
            (<[ "PRIVATE_KEY" := privateKey Cases.cfg ]> Sample.env))
  = Normal Cases.cfg.
Proof.
  apply (normalised_credential_validates Sample.env Cases.cfg).
  vm_compute. reflexivity.
Defined.

(** The configuration validation returns: the endpoint and the registry
    address are those of the environment, unchanged; the credential is 66
    characters long and the registry address 42, both behind [0x]. *)
Theorem validated_config_shape env (cfg : config) :
  result (validateEnvironment env) = Normal cfg →
  env !! "RPC_URL" = Some (rpcUrl cfg) ∧ rpcUrl cfg ≠ ""
  ∧ env !! "SCHEMA_REGISTRY_ADDRESS" = Some (schemaRegistryAddress cfg)
  ∧ String.length (privateKey cfg) = 66
  ∧ String.length (schemaRegistryAddress cfg) = 42
  ∧ Spec.prefixed (privateKey cfg)
  ∧ Spec.prefixed (schemaRegistryAddress cfg).
Proof.
  intros (url & key & addr & Hurl & Hurl_ne & Hkey & Haddr
          & Hcred%private_key_re_spec
          & (abody & -> & [Halen _])%address_re_spec & ->)%validateEnvironment_inv.
  simpl. repeat split; try done.
  - destruct Hcred as [Hhex|(body & -> & [Hlen _])].
    + rewrite (hex_string_not_prefixed 64 key Hhex).
      destruct Hhex as [Hlen _]. rewrite string_app_length, Hlen. done.
    + replace (JS.startsWith ("0x" +:+ body) "0x") with true
        by (symmetry; apply startsWith_spec; eauto).
      rewrite string_app_length, Hlen. done.
  - rewrite string_app_length, Halen. done.
  - destruct (JS.startsWith key "0x") eqn:Hpre.
    + by apply startsWith_prefixed.
    + by exists key.
  - by exists abody.
Qed.

Lemma validated_config_shape_witness :
  Sample.env !! "RPC_URL" = Some (rpcUrl Cases.cfg) ∧ rpcUrl Cases.cfg ≠ ""
  ∧ Sample.env !! "SCHEMA_REGISTRY_ADDRESS"
    = Some (schemaRegistryAddress Cases.cfg)
  ∧ String.length (privateKey Cases.cfg) = 66
  ∧ String.length (schemaRegistryAddress Cases.cfg) = 42
  ∧ Spec.prefixed (privateKey Cases.cfg)
  ∧ Spec.prefixed (schemaRegistryAddress Cases.cfg).
Proof.
  apply (validated_config_shape Sample.env Cases.cfg).
  vm_compute. reflexivity.
Defined.

End ValidateEnvironmentMore.

(** ** connectToNetwork: which errors are rewritten, and the balance *)

Section ConnectToNetworkFacts.
Import RegisterSchema Observe.

Implicit Types (w : world) (cfg : config) (e : error).

Lemma is_network_error_spec e :
  code_is e "NETWORK_ERROR" || code_is e "TIMEOUT" = true ↔ is_network_error e.
Proof.
  unfold code_is, is_network_error.
  by rewrite orb_true_iff, !bool_decide_eq_true.
Qed.

(** The result of a connection, by the first call that throws. *)
Lemma connectToNetwork_result w cfg :
  result (connectToNetwork w cfg)
  = match first_connection_error w cfg with
    | Some e =>
        Thrown (if code_is e "NETWORK_ERROR" || code_is e "TIMEOUT"
                then new_Error
                       ("Network connection failed: "
                        +:+ JS.template (message e) +:+ newline
                        +:+ "Please check your RPC_URL and internet connection.")
                else e)
    | None => Normal {| provider := rpcUrl cfg; signer := privateKey cfg |}
    end.
Proof.
  unfold connectToNetwork, first_connection_error.
  destruct (JsonRpcProvider w (rpcUrl cfg)) as [[]|e];
    [|run_eff; destruct (orb _ _); reflexivity].
  destruct (getNetwork w) as [net|e]; [|run_eff; destruct (orb _ _); reflexivity].
  destruct (Wallet w (privateKey cfg)) as [[]|e];
    [|run_eff; destruct (orb _ _); reflexivity].
  destruct (getAddress w) as [address|e];
    [|run_eff; destruct (orb _ _); reflexivity].
  run_eff.
  destruct (getBalance w address) as [balance|e];
    [|destruct (orb _ _); reflexivity].
  by destruct (bool_decide (balance = 0%Z)).
Qed.

(** A network-level failure ([NETWORK_ERROR] or [TIMEOUT]) of any call is
    re-raised as a fresh connection error: its message starts with
    "Network connection failed: ", carries the text of the original error
    and points at [RPC_URL]; the original code is not passed on. *)
Theorem network_failure_reworded w cfg e :
  first_connection_error w cfg = Some e → is_network_error e →
  ∃ msg,
    result (connectToNetwork w cfg) = Thrown (new_Error msg)
    ∧ JS.startsWith msg "Network connection failed: " = true
    ∧ (∀ text, message e = Some text → Spec.contains msg text)
    ∧ Spec.contains msg "RPC_URL".
Proof.
  intros Hfirst Hnet%is_network_error_spec.
  rewrite connectToNetwork_result, Hfirst, Hnet.
  eexists. split; [reflexivity|]. split; [|split].
  - apply startsWith_spec. eauto.
  - intros text ->. apply contains_app_r, contains_app_l, contains_refl.
  - do 3 apply contains_app_r.
    exists "Please check your ", " and internet connection.". reflexivity.
Qed.

Lemma network_failure_reworded_witness :
  ∃ msg,
    result (connectToNetwork Cases.world_offline Cases.cfg)
    = Thrown (new_Error msg)
    ∧ JS.startsWith msg "Network connection failed: " = true
    ∧ (∀ text, message Cases.network_down = Some text → Spec.contains msg text)
    ∧ Spec.contains msg "RPC_URL".
Proof.
  apply (network_failure_reworded Cases.world_offline Cases.cfg
           Cases.network_down).
  - reflexivity.
  - left. reflexivity.
Defined.

(** Any other failure of a call of the connection reaches the caller as
    the very error that was thrown. *)
Theorem other_failure_unchanged w cfg e :
  first_connection_error w cfg = Some e → ¬ is_network_error e →
  result (connectToNetwork w cfg) = Thrown e.
Proof.
  intros Hfirst Hnot. rewrite connectToNetwork_result, Hfirst.
  rewrite <- is_network_error_spec in Hnot.
  destruct (orb _ _); [by destruct Hnot | reflexivity].
Qed.

Lemma other_failure_unchanged_witness :
  result (connectToNetwork Cases.world_bad_wallet Cases.cfg)
  = Thrown Cases.bad_argument.
Proof.
  apply (other_failure_unchanged Cases.world_bad_wallet Cases.cfg
           Cases.bad_argument).
  - reflexivity.
  - intros [Hcode|Hcode]; discriminate Hcode.
Defined.

(** When no call fails the connection succeeds whatever the balance is:
    it hands back the endpoint and the credential it was given, and the
    zero-balance warning is printed exactly when the balance read is
    zero. *)
Theorem zero_balance_only_warns w cfg :
  first_connection_error w cfg = None →
  result (connectToNetwork w cfg)
  = Normal {| provider := rpcUrl cfg; signer := privateKey cfg |}
  ∧ (warning zero_balance_text ∈ trace (connectToNetwork w cfg)
     ↔ balance_read w = Some 0%Z).
Proof.
  intros Hfirst. split; [by rewrite connectToNetwork_result, Hfirst|].
  revert Hfirst.
  unfold connectToNetwork, first_connection_error, balance_read.
  destruct (JsonRpcProvider w (rpcUrl cfg)) as [[]|e]; [|done].
  destruct (getNetwork w) as [net|e]; [|done].
  destruct (Wallet w (privateKey cfg)) as [[]|e]; [|done].
  destruct (getAddress w) as [address|e]; [|done].
  run_eff.
  destruct (getBalance w address) as [balance|e]; [|done].
  intros _. case_bool_decide as Hzero.
  - subst balance. split; [done|]. intros _.
    do 9 apply list_elem_of_further. apply list_elem_of_here.
  - split; [|by intros [= ?]]. intros Hin.
    repeat (apply elem_of_cons in Hin as [Hin|Hin]);
      try (apply (f_equal colour_digit) in Hin; by vm_compute in Hin);
      try discriminate Hin.
    by apply elem_of_nil in Hin.
Qed.

Lemma zero_balance_only_warns_witness :
  result (connectToNetwork Cases.world_broke Cases.cfg)
  = Normal {| provider := rpcUrl Cases.cfg; signer := privateKey Cases.cfg |}
  ∧ (warning zero_balance_text ∈ trace (connectToNetwork Cases.world_broke Cases.cfg)
     ↔ balance_read Cases.world_broke = Some 0%Z).
Proof.
  apply (zero_balance_only_warns Cases.world_broke Cases.cfg).
  reflexivity.
Defined.

End ConnectToNetworkFacts.

(** ** registerSchema: the failures it rewrites and the ones it does not *)

Section RegisterSchemaMore.
Import RegisterSchema Observe.

Implicit Types (w : world) (e : error).

Local Arguments second_topic_of_first_log : simpl never.

(** The registry handle is built and connected before the [try] block: a
    failure there reaches the caller as the very error that was thrown,
    and the schema is never submitted. *)
Theorem registry_setup_failure_unchanged w (signer address : string) e :
  SchemaRegistry w address = Throws e
  ∨ (SchemaRegistry w address = Returns tt ∧ connect w signer = Throws e) →
  result (registerSchema w signer address) = Thrown e
  ∧ occurrences is_Register (trace (registerSchema w signer address)) = 0.
Proof.
  unfold registerSchema. intros [Hnew|[Hnew Hconn]].
  - rewrite Hnew. split; reflexivity.
  - rewrite Hnew, Hconn. split; reflexivity.
Qed.

Lemma registry_setup_failure_unchanged_witness :
  result (registerSchema Cases.world_no_registry Sample.key64 Sample.registry)
  = Thrown Cases.bad_argument
  ∧ occurrences is_Register
      (trace (registerSchema Cases.world_no_registry
                Sample.key64 Sample.registry)) = 0.
Proof.
  apply (registry_setup_failure_unchanged Cases.world_no_registry
           Sample.key64 Sample.registry Cases.bad_argument).
  left. reflexivity.
Defined.

(** The code of a submission error decides first: [INSUFFICIENT_FUNDS] is
    reported as a funding problem and [NONCE_EXPIRED] or
    [REPLACEMENT_UNDERPRICED] as a nonce problem, whatever the text of the
    error says. *)
Theorem submission_error_by_code w (signer address : string) e :
  Spec.registry_ready w signer address → Spec.submission_fails w e →
  (code e = Some "INSUFFICIENT_FUNDS" →
   result (registerSchema w signer address)
   = Thrown (new_Error insufficient_funds_message))
  ∧ (code e = Some "NONCE_EXPIRED" ∨ code e = Some "REPLACEMENT_UNDERPRICED" →
     result (registerSchema w signer address)
     = Thrown (new_Error nonce_message)).
Proof.
  intros Hready Hfail.
  rewrite (registerSchema_failure w signer address e) by done.
  unfold submission_error, code_is. split.
  - intros Hcode. by rewrite bool_decide_true.
  - intros [Hcode|Hcode]; rewrite Hcode.
    + rewrite bool_decide_false by done. by rewrite bool_decide_true.
    + rewrite bool_decide_false by done.
      rewrite (bool_decide_false (_ = Some "NONCE_EXPIRED")) by done.
      by rewrite bool_decide_true.
Qed.

Lemma submission_error_by_code_witness :
  (code Cases.out_of_funds = Some "INSUFFICIENT_FUNDS" →
   result (registerSchema (Sample.world_with (Throws Cases.out_of_funds))
             Sample.key64 Sample.registry)
   = Thrown (new_Error insufficient_funds_message))
  ∧ (code Cases.out_of_funds = Some "NONCE_EXPIRED"
     ∨ code Cases.out_of_funds = Some "REPLACEMENT_UNDERPRICED" →
     result (registerSchema (Sample.world_with (Throws Cases.out_of_funds))
               Sample.key64 Sample.registry)
     = Thrown (new_Error nonce_message)).
Proof.
  apply (submission_error_by_code
           (Sample.world_with (Throws Cases.out_of_funds))
           Sample.key64 Sample.registry Cases.out_of_funds).
  - split; reflexivity.
  - left. reflexivity.
Defined.

(** Every submission failure reaches the caller as a fresh [Error] with
    one of four messages; the code of the original error is never passed
    on. *)
Theorem submission_failure_taxonomy w (signer address : string) e :
  Spec.registry_ready w signer address → Spec.submission_fails w e →
  ∃ thrown msg,
    result (registerSchema w signer address) = Thrown thrown
    ∧ thrown = new_Error msg
    ∧ code thrown = None
    ∧ msg ∈ [insufficient_funds_message; nonce_message;
             already_exists_message;
             "Schema registration failed: " +:+ JS.template (message e)].
Proof.
  intros Hready Hfail.
  rewrite (registerSchema_failure w signer address e) by done.
  unfold submission_error.
  destruct (code_is e "INSUFFICIENT_FUNDS");
    [|destruct (orb _ _); [|destruct (mentions_already_exists e)]];
    eexists _, _; (split; [reflexivity|]); (split; [reflexivity|]);
    (split; [reflexivity|]).
  - apply list_elem_of_here.
  - apply list_elem_of_further, list_elem_of_here.
  - do 2 apply list_elem_of_further. apply list_elem_of_here.
  - do 3 apply list_elem_of_further. apply list_elem_of_here.
Qed.

Lemma submission_failure_taxonomy_witness :
  ∃ thrown msg,
    result (registerSchema (Sample.world_with (Throws Cases.reverted))
              Sample.key64 Sample.registry) = Thrown thrown
    ∧ thrown = new_Error msg
    ∧ code thrown = None
    ∧ msg ∈ [insufficient_funds_message; nonce_message;
             already_exists_message;
             "Schema registration failed: "
             +:+ JS.template (message Cases.reverted)].
Proof.
  apply (submission_failure_taxonomy
           (Sample.world_with (Throws Cases.reverted))
           Sample.key64 Sample.registry Cases.reverted).
  - split; reflexivity.
  - left. reflexivity.
Defined.

(** A submission error that none of the three codes and no "already
    exists" text identifies is reported as a generic registration failure
    that carries the text of the original error. *)
Theorem unrecognised_error_keeps_text w (signer address : string) e
    (text : string) :
  Spec.registry_ready w signer address → Spec.submission_fails w e →
  code e ≠ Some "INSUFFICIENT_FUNDS" →
  code e ≠ Some "NONCE_EXPIRED" →
  code e ≠ Some "REPLACEMENT_UNDERPRICED" →
  message e = Some text → ¬ Spec.contains text "already exists" →
  result (registerSchema w signer address)
  = Thrown (new_Error ("Schema registration failed: " +:+ text)).
Proof.
  intros Hready Hfail Hc1 Hc2 Hc3 Hmsg Hnot.
  rewrite (registerSchema_failure w signer address e) by done.
  unfold submission_error, code_is, mentions_already_exists.
  rewrite !bool_decide_false by done. rewrite Hmsg.
  rewrite <- includes_spec in Hnot.
  destruct (JS.includes text "already exists"); [done|].
  by rewrite andb_false_r.
Qed.

Lemma unrecognised_error_keeps_text_witness :
  result (registerSchema (Sample.world_with (Throws Cases.reverted))
            Sample.key64 Sample.registry)
  = Thrown (new_Error ("Schema registration failed: " +:+ "execution reverted")).
Proof.
  apply (unrecognised_error_keeps_text
           (Sample.world_with (Throws Cases.reverted))
           Sample.key64 Sample.registry Cases.reverted "execution reverted").
  - split; reflexivity.
  - left. reflexivity.
  - discriminate.
  - discriminate.
  - discriminate.
  - reflexivity.
  - rewrite <- includes_spec. vm_compute. discriminate.
Defined.

(** The identifier that is returned is the one shown to the operator:
    whenever the registration returns, the line "Schema UID: ..." with
    that identifier was printed. *)
Theorem returned_uid_is_printed w (signer address : string)
    (schemaUID : option string) :
  result (registerSchema w signer address) = Normal schemaUID →
  uid_line schemaUID ∈ trace (registerSchema w signer address).
Proof.
  unfold registerSchema.
  destruct (SchemaRegistry w address) as [[]|e0]; [|done].
  destruct (connect w signer) as [[]|e0]; [|done].
  destruct (register w _) as [[s|tx]|e0]; [| |done].
  - eff_step. intros [= <-]. cbn [app].
    do 14 apply list_elem_of_further. apply list_elem_of_here.
  - eff_step. destruct (wait tx) as [r|e0]; [|done]. eff_step.
    destruct (second_topic_of_first_log r) as [uid|]; eff_step.
    + intros [= <-]. cbn [app].
      do 17 apply list_elem_of_further. apply list_elem_of_here.
    + intros [= <-]. cbn [app].
      do 18 apply list_elem_of_further. apply list_elem_of_here.
Qed.

Lemma returned_uid_is_printed_witness :
  uid_line (Some Sample.uid)
  ∈ trace (registerSchema Cases.world_ok Sample.key64 Sample.registry).
Proof.
  apply (returned_uid_is_printed Cases.world_ok Sample.key64 Sample.registry
           (Some Sample.uid)).
  reflexivity.
Defined.

(** After a completed wait, the warning about the fallback is printed
    exactly when the receipt has no first log with a second topic. *)
Theorem fallback_is_announced w (signer address : string) (tx : transaction)
    (r : receipt) :
  Spec.registry_ready w signer address →
  register w Sample.request = Returns (Pending tx) →
  wait tx = Returns r →
  warning fallback_text ∈ trace (registerSchema w signer address)
  ↔ ¬ ∃ uid, Spec.second_topic_of_first_log r uid.
Proof.
  intros [Hnew Hconn] Hreg Hwait. unfold registerSchema.
  unfold Sample.request in Hreg. rewrite Hnew, Hconn, Hreg.
  eff_step. rewrite Hwait. eff_step.
  destruct (second_topic_of_first_log r) as [uid|] eqn:Hsecond; eff_step;
    cbn [app].
  - apply second_topic_spec in Hsecond. split; [|intros []; eauto].
    intros Hin.
    repeat (apply elem_of_cons in Hin as [Hin|Hin]);
      try (apply (f_equal colour_digit) in Hin; by vm_compute in Hin);
      try (by vm_compute in Hin).
    by apply elem_of_nil in Hin.
  - split.
    + intros _ [uid Huid%second_topic_spec]. by rewrite Hsecond in Huid.
    + intros _. do 14 apply list_elem_of_further. apply list_elem_of_here.
Qed.

Lemma fallback_is_announced_witness :
  warning fallback_text
  ∈ trace (registerSchema
             (Sample.world_with
                (Returns (Pending (Sample.pending Sample.receipt_without_logs))))
             Sample.key64 Sample.registry)
  ↔ ¬ ∃ uid, Spec.second_topic_of_first_log Sample.receipt_without_logs uid.
Proof.
  apply (fallback_is_announced
           (Sample.world_with
              (Returns (Pending (Sample.pending Sample.receipt_without_logs))))
           Sample.key64 Sample.registry
           (Sample.pending Sample.receipt_without_logs)
           Sample.receipt_without_logs).
  - split; reflexivity.
  - reflexivity.
  - reflexivity.
Defined.

End RegisterSchemaMore.

(** ** main: what reaches the outside, in which order, and the report of
    a failure *)

(** Bring a trace built from pieces into the form of one list. *)
Ltac trace_norm :=
  repeat first [ progress cbn [app andb]
               | rewrite <- app_assoc
               | rewrite app_nil_r
               | progress eff_step ].

Section MainMore.
Import RegisterSchema Observe.

Implicit Types (env : gmap string string) (w : world) (e : error).

Local Arguments second_topic_of_first_log : simpl never.

Lemma outside_calls_app (t1 t2 : list event) :
  outside_calls (t1 ++ t2) = outside_calls t1 ++ outside_calls t2.
Proof. apply filter_app. Qed.

Lemma outside_calls_nil {A} (m : M A) :
  calls_le is_outside_call 0 m → outside_calls (trace m) = [].
Proof.
  unfold calls_le, occurrences, outside_calls. intros Hle.
  apply nil_length_inv. lia.
Qed.

Lemma validateEnvironment_quiet env :
  outside_calls (trace (validateEnvironment env)) = [].
Proof. apply outside_calls_nil. count. Qed.

Lemma failure_report_quiet env e : outside_calls (failure_report env e) = [].
Proof.
  unfold failure_report.
  destruct (JS.truthy (stack e)); [case_bool_decide|]; reflexivity.
Qed.

(** The calls of a connection: a prefix of the five, and all five when it
    succeeds. *)
Lemma connectToNetwork_calls w (cfg : config) :
  ∃ address,
    outside_calls (trace (connectToNetwork w cfg))
      `prefix_of` connection_calls cfg address
    ∧ ∀ conn, result (connectToNetwork w cfg) = Normal conn →
        outside_calls (trace (connectToNetwork w cfg))
        = connection_calls cfg address
        ∧ signer conn = privateKey cfg.
Proof.
  unfold connectToNetwork, connection_calls.
  destruct (JsonRpcProvider w (rpcUrl cfg)) as [[]|e].
  2: { exists "". eff_step. destruct (orb _ _); eff_step;
         (split; [by eexists | done]). }
  destruct (getNetwork w) as [net|e].
  2: { exists "". eff_step. destruct (orb _ _); eff_step;
         (split; [by eexists | done]). }
  destruct (Wallet w (privateKey cfg)) as [[]|e].
  2: { exists "". eff_step. destruct (orb _ _); eff_step;
         (split; [by eexists | done]). }
  destruct (getAddress w) as [address|e].
  2: { exists "". eff_step. destruct (orb _ _); eff_step;
         (split; [by eexists | done]). }
  exists address. eff_step.
  destruct (getBalance w address) as [balance|e]; eff_step.
  - destruct (bool_decide (balance = 0%Z)); eff_step;
      (split; [by exists [] | by intros conn [= <-]]).
  - destruct (orb _ _); eff_step; (split; [by exists [] | done]).
Qed.

(** The calls of a registration: a prefix of the four. *)
Lemma registerSchema_calls w (signer address : string) :
  outside_calls (trace (registerSchema w signer address))
    `prefix_of` registry_calls signer address.
Proof.
  unfold registerSchema, registry_calls.
  destruct (SchemaRegistry w address) as [[]|e]; [|by eexists].
  destruct (connect w signer) as [[]|e]; [|by eexists].
  destruct (register w _) as [[s|tx]|e]; eff_step; [by eexists | | by eexists].
  destruct (wait tx) as [r|e]; eff_step; [|by eexists].
  destruct (second_topic_of_first_log r); eff_step; by exists [].
Qed.

(** The trace of [main], by its three stages. *)
Lemma main_trace env w :
  ∃ banner,
    outside_calls banner = []
    ∧ trace (main env w)
      = banner ++ trace (validateEnvironment env)
        ++ match result (validateEnvironment env) with
           | Normal cfg =>
               trace (log_ "") ++ trace (connectToNetwork w cfg)
               ++ match result (connectToNetwork w cfg) with
                  | Normal conn =>
                      trace (log_ "")
                      ++ trace (registerSchema w (signer conn)
                                  (schemaRegistryAddress cfg))
                      ++ match result (registerSchema w (signer conn)
                                         (schemaRegistryAddress cfg)) with
                         | Thrown e => failure_report env e
                         | _ => []
                         end
                  | Thrown e => failure_report env e
                  | Exited _ => []
                  end
           | Thrown e => failure_report env e
           | Exited _ => []
           end.
Proof.
  exists (trace (log_ "") ++ trace (log rule colors.cyan)
          ++ trace (log "  EAS Schema Registration Script" colors.cyan)
          ++ trace (log "  Base Sepolia Testnet" colors.cyan)
          ++ trace (log rule colors.cyan) ++ trace (log_ "")).
  split; [reflexivity|].
  unfold main. eff_step.
  destruct (result (validateEnvironment env)) as [cfg|e|c]; eff_step;
    [destruct (result (connectToNetwork w cfg)) as [conn|e|c]; eff_step;
       [destruct (result (registerSchema w (signer conn)
                            (schemaRegistryAddress cfg))) as [uid|e|c];
          eff_step | |] | |];
    try (unfold failure_report, debug_enabled;
         destruct (JS.truthy (stack e)); [case_bool_decide|]);
    trace_norm; reflexivity.
Qed.

(** A configuration that fails validation never reaches the outside: no
    endpoint, wallet or registry call is made, and the process exits with
    code 1. *)
Theorem invalid_configuration_stays_local env w e :
  result (validateEnvironment env) = Thrown e →
  outside_calls (trace (main env w)) = []
  ∧ exit_code (main env w) = Some 1%Z.
Proof.
  intros Hv. split.
  - destruct (main_trace env w) as (banner & Hbanner & ->).
    rewrite Hv, !outside_calls_app, Hbanner.
    by rewrite validateEnvironment_quiet, failure_report_quiet.
  - unfold exit_code. by rewrite main_result, Hv.
Qed.

Lemma invalid_configuration_stays_local_witness :
  outside_calls (trace (main Cases.env_bad_key Cases.world_ok)) = []
  ∧ exit_code (main Cases.env_bad_key Cases.world_ok) = Some 1%Z.
Proof.
  apply (invalid_configuration_stays_local Cases.env_bad_key Cases.world_ok
           (new_Error private_key_message)).
  vm_compute. reflexivity.
Defined.

Lemma connectToNetwork_calls_made w (cfg : config) :
  outside_calls (trace (connectToNetwork w cfg)) = connection_calls_made w cfg.
Proof.
  unfold connectToNetwork, connection_calls_made.
  destruct (JsonRpcProvider w (rpcUrl cfg)) as [[]|e];
    [|eff_step; destruct (orb _ _); eff_step; reflexivity].
  destruct (getNetwork w) as [net|e];
    [|eff_step; destruct (orb _ _); eff_step; reflexivity].
  destruct (Wallet w (privateKey cfg)) as [[]|e];
    [|eff_step; destruct (orb _ _); eff_step; reflexivity].
  destruct (getAddress w) as [address|e];
    [|eff_step; destruct (orb _ _); eff_step; reflexivity].
  eff_step.
  destruct (getBalance w address) as [balance|e]; eff_step.
  - destruct (bool_decide (balance = 0%Z)); eff_step; reflexivity.
  - destruct (orb _ _); eff_step; reflexivity.
Qed.

Lemma registerSchema_calls_made w (signer address : string) :
  outside_calls (trace (registerSchema w signer address))
  = registry_calls_made w signer address.
Proof.
  unfold registerSchema, registry_calls_made, Sample.request.
  destruct (SchemaRegistry w address) as [[]|e]; [|reflexivity].
  destruct (connect w signer) as [[]|e]; [|reflexivity].
  destruct (register w _) as [[s|tx]|e]; eff_step; [reflexivity | | reflexivity].
  destruct (wait tx) as [r|e]; eff_step; [|reflexivity].
  destruct (second_topic_of_first_log r); eff_step; reflexivity.
Qed.

Lemma main_calls_prefix env w (cfg : config) :
  result (validateEnvironment env) = Normal cfg →
  ∃ address,
    outside_calls (trace (main env w))
      `prefix_of` connection_calls cfg address
                  ++ registry_calls (privateKey cfg)
                       (schemaRegistryAddress cfg).
Proof.
  intros Hv.
  destruct (connectToNetwork_calls w cfg) as (address & Hprefix & Hall).
  exists address.
  destruct (main_trace env w) as (banner & Hbanner & ->).
  rewrite Hv, !outside_calls_app, Hbanner, validateEnvironment_quiet.
  cbn [app]. change (outside_calls (trace (log_ ""))) with (@nil event).
  cbn [app].
  destruct (result (connectToNetwork w cfg)) as [conn|e|c] eqn:Hc.
  - destruct (Hall conn eq_refl) as [-> ->].
    apply prefix_app. rewrite !outside_calls_app.
    change (outside_calls (trace (log_ ""))) with (@nil event). cbn [app].
    pose proof (registerSchema_calls w (privateKey cfg)
                  (schemaRegistryAddress cfg)) as Hreg.
    destruct (result (registerSchema w (privateKey cfg)
                        (schemaRegistryAddress cfg)));
      rewrite ?failure_report_quiet, ?app_nil_r; exact Hreg.
  - rewrite failure_report_quiet, app_nil_r. by apply prefix_app_r.
  - rewrite app_nil_r. by apply prefix_app_r.
Qed.

(** With a valid configuration, the calls [main] makes to the outside are
    exactly these: the calls of the connection, each made exactly when
    every call before it returned; then, exactly when no call of the
    connection threw, the calls of the registry, again each made exactly
    when every call before it returned.  So a run stops at the first call
    that throws, the registry is contacted only after the whole
    connection succeeded, and the calls are a prefix of one fixed
    sequence of nine, none repeated. *)
Theorem main_calls_in_order env w (cfg : config) :
  result (validateEnvironment env) = Normal cfg →
  outside_calls (trace (main env w))
  = connection_calls_made w cfg
    ++ match first_connection_error w cfg with
       | None =>
           registry_calls_made w (privateKey cfg) (schemaRegistryAddress cfg)
       | Some _ => []
       end
  ∧ (∀ e, first_connection_error w cfg = Some e →
       outside_calls (trace (main env w)) = connection_calls_made w cfg
       ∧ Forall (λ ev, ev ∉ registry_calls (privateKey cfg)
                              (schemaRegistryAddress cfg))
           (outside_calls (trace (main env w))))
  ∧ ∃ address,
      outside_calls (trace (main env w))
        `prefix_of` connection_calls cfg address
                    ++ registry_calls (privateKey cfg)
                         (schemaRegistryAddress cfg).
Proof.
  intros Hv.
  assert (outside_calls (trace (main env w))
          = connection_calls_made w cfg
            ++ match first_connection_error w cfg with
               | None =>
                   registry_calls_made w (privateKey cfg)
                     (schemaRegistryAddress cfg)
               | Some _ => []
               end) as Hcalls.
  { destruct (main_trace env w) as (banner & Hbanner & ->).
    rewrite Hv, !outside_calls_app, Hbanner, validateEnvironment_quiet.
    cbn [app]. change (outside_calls (trace (log_ ""))) with (@nil event).
    cbn [app]. rewrite connectToNetwork_calls_made, connectToNetwork_result.
    f_equal.
    destruct (first_connection_error w cfg) as [e|].
    - apply failure_report_quiet.
    - rewrite !outside_calls_app.
      change (outside_calls (trace (log_ ""))) with (@nil event).
      cbn [app signer]. rewrite registerSchema_calls_made.
      destruct (result (registerSchema w (privateKey cfg)
                          (schemaRegistryAddress cfg)));
        rewrite ?failure_report_quiet, ?app_nil_r; reflexivity. }
  split; [exact Hcalls|]. split; [|by apply main_calls_prefix].
  intros e He. rewrite Hcalls, He, app_nil_r. split; [done|].
  unfold connection_calls_made, registry_calls.
  destruct (JsonRpcProvider w (rpcUrl cfg));
    [destruct (getNetwork w);
       [destruct (Wallet w (privateKey cfg)); [destruct (getAddress w)|]|]|];
    repeat (apply Forall_cons; split;
            [intros Hin; repeat (apply elem_of_cons in Hin as [Hin|Hin]);
               [discriminate Hin.. | by apply elem_of_nil in Hin]|]);
    apply Forall_nil_2.
Qed.

Lemma main_calls_in_order_witness :
  outside_calls (trace (main Sample.env Cases.world_offline))
  = connection_calls_made Cases.world_offline Cases.cfg
    ++ match first_connection_error Cases.world_offline Cases.cfg with
       | None =>
           registry_calls_made Cases.world_offline (privateKey Cases.cfg)
             (schemaRegistryAddress Cases.cfg)
       | Some _ => []
       end
  ∧ (∀ e, first_connection_error Cases.world_offline Cases.cfg = Some e →
       outside_calls (trace (main Sample.env Cases.world_offline))
       = connection_calls_made Cases.world_offline Cases.cfg
       ∧ Forall (λ ev, ev ∉ registry_calls (privateKey Cases.cfg)
                              (schemaRegistryAddress Cases.cfg))
           (outside_calls (trace (main Sample.env Cases.world_offline))))
  ∧ ∃ address,
      outside_calls (trace (main Sample.env Cases.world_offline))
        `prefix_of` connection_calls Cases.cfg address
                    ++ registry_calls (privateKey Cases.cfg)
                         (schemaRegistryAddress Cases.cfg).
Proof.
  apply (main_calls_in_order Sample.env Cases.world_offline Cases.cfg).
  vm_compute. reflexivity.
Defined.

(** When a stage fails, the last thing [main] prints is the report of
    that failure: a blank line, the line "ERROR: ..." with the message of
    the error, a blank line, and the stack under "Stack trace:" only when
    [DEBUG] is "true"; the process then exits with code 1. *)
Theorem failure_is_reported env w e :
  main_failure env w = Some e →
  (∃ before, trace (main env w) = before ++ failure_report env e)
  ∧ exit_code (main env w) = Some 1%Z.
Proof.
  unfold main_failure, exit_code. intros Hfail. rewrite main_result.
  destruct (main_trace env w) as (banner & _ & ->).
  destruct (result (validateEnvironment env)) as [cfg|e1|c]; [| |done].
  - destruct (result (connectToNetwork w cfg)) as [conn|e2|c]; [| |done].
    + destruct (result (registerSchema w (signer conn)
                          (schemaRegistryAddress cfg))) as [uid|e3|c];
        [done| |done].
      injection Hfail as ->. split; [|done].
      eexists. rewrite !app_assoc. reflexivity.
    + injection Hfail as ->. split; [|done].
      eexists. rewrite !app_assoc. reflexivity.
  - injection Hfail as ->. split; [|done].
    eexists. rewrite !app_assoc. reflexivity.
Qed.

Lemma failure_is_reported_witness :
  (∃ before,
     trace (main Cases.env_bad_key Cases.world_ok)
     = before ++ failure_report Cases.env_bad_key
                   (new_Error private_key_message))
  ∧ exit_code (main Cases.env_bad_key Cases.world_ok) = Some 1%Z.
Proof.
  apply (failure_is_reported Cases.env_bad_key Cases.world_ok
           (new_Error private_key_message)).
  vm_compute. reflexivity.
Defined.

End MainMore.

(** ** The liveness route and the 404 handler *)

Section RoutesFacts.
Import Server Routes.

(** The liveness route answers every request exactly once and does not
    raise, whatever the connectivity check does; the status code is 503
    exactly when the check throws and 200 otherwise, and the body always
    carries the version "0.1.0" and the time of the answer. *)
Theorem health_always_answers (testConnection : outcome bool) (now : string) :
  result (health testConnection now) = Normal tt
  ∧ ∃ status body,
      responses (trace (health testConnection now)) = [(status, body)]
      ∧ (status = 503 ↔ ∃ e, testConnection = Throws e)
      ∧ (status = 200 ↔ ∃ b, testConnection = Returns b)
      ∧ field "version" body = Some "0.1.0"
      ∧ field "timestamp" body = Some now.
Proof.
  destruct testConnection as [b|e]; (split; [reflexivity|]).
  - eexists _, _. split; [reflexivity|].
    split; [split; [done | by intros [? ?]]|].
    split; [split; [eauto | done]|]. split; reflexivity.
  - eexists _, _. split; [reflexivity|].
    split; [split; [eauto | done]|].
    split; [split; [done | by intros [? ?]]|].
    split; reflexivity.
Qed.

(** When the connectivity check throws, the body of the 503 answer
    reports the database as disconnected and carries the message of the
    error under [error]; the key is absent when the error has no message. *)
Theorem health_failure_body (e : error) (now : string) :
  ∃ body,
    responses (trace (health (Throws e) now)) = [(503, body)]
    ∧ field "database" body = Some "disconnected"
    ∧ field "error" body = message e.
Proof.
  eexists. split; [reflexivity|]. split; [reflexivity|].
  destruct (message e); reflexivity.
Qed.

(** An unmatched request is answered once with status 404; the message
    of the body names both the method and the path of the request. *)
Theorem not_found_names_request (method path now : string) :
  result (not_found method path now) = Normal tt
  ∧ ∃ body msg,
      responses (trace (not_found method path now)) = [(404, body)]
      ∧ field "error" body = Some "Not Found"
      ∧ field "message" body = Some msg
      ∧ Spec.contains msg method ∧ Spec.contains msg path
      ∧ field "timestamp" body = Some now.
Proof.
  split; [reflexivity|].
  eexists _, _. split; [reflexivity|]. split; [reflexivity|].
  split; [reflexivity|]. split; [|split; [|reflexivity]].
  - apply contains_app_r, contains_app_l, contains_refl.
  - do 3 apply contains_app_r. apply contains_app_l, contains_refl.
Qed.

End RoutesFacts.
